(** * The WebSocket plugin of youtube-music (src/plugins/websocket/main.ts)

    A shallow embedding of the plugin's back end: the process-wide [State],
    the HTTP and upgrade handlers, [stop], [updateActivity] and the frame
    encoder [constructReply], together with the parts of the JavaScript
    runtime they call (UTF-16 strings, [JSON.stringify], UTF-8 encoding,
    [Buffer] writes, SHA-1 and base64). *)

From Stdlib Require Import ZArith Lia Ascii String DecimalString.
From stdpp Require Import gmap list sorting.

Local Open Scope Z_scope.

(** Linear arithmetic with division and remainder by constants. *)
Ltac zlia := Z.div_mod_to_equations; lia.

(** Case analysis on the boolean tests of a goal, keeping the facts. *)
Ltac case_test :=
  match goal with
  | |- context [Z.ltb ?a ?b] => destruct (Z.ltb_spec a b)
  | |- context [Z.leb ?a ?b] => destruct (Z.leb_spec a b)
  | |- context [Z.eqb ?a ?b] => destruct (Z.eqb_spec a b)
  end.

(* ================================================================== *)
(** * Exceptions *)
(* ================================================================== *)

Inductive jserror : Type := RangeError | TypeError.

(** The outcome of an expression that can throw. *)
Inductive result (A : Type) : Type :=
| Ok (a : A)
| Throw (e : jserror).
Arguments Ok {A} a.
Arguments Throw {A} e.

#[export] Instance result_ret : MRet result := fun A a => Ok a.
#[export] Instance result_bind : MBind result :=
  fun A B f r => match r with Ok a => f a | Throw e => Throw e end.

(* ================================================================== *)
(** * JavaScript strings *)
(* ================================================================== *)

(** A JavaScript string is a sequence of UTF-16 code units, each one an
    integer below 65536; [.length] counts code units. *)
Abbreviation jsstring := (list Z).

Module JSString.

(** A literal of the source, given by its ASCII characters. *)
Definition lit (s : string) : jsstring :=
  (fun a => Z.of_N (N_of_ascii a)) <$> list_ascii_of_string s.

Definition js_length (s : jsstring) : Z := Z.of_nat (length s).

Definition unit_ok (c : Z) : bool := (0 <=? c) && (c <? 0x10000).
Definition valid (s : jsstring) : bool := forallb unit_ok s.

Definition is_high (c : Z) : bool := (0xD800 <=? c) && (c <? 0xDC00).
Definition is_low (c : Z) : bool := (0xDC00 <=? c) && (c <? 0xE000).
Definition is_surrogate (c : Z) : bool := (0xD800 <=? c) && (c <? 0xE000).

(** StringToCodePoints of ECMA-262: a high surrogate followed by a low one
    is one supplementary code point, every other code unit (a lone
    surrogate too) is a code point of its own. *)
Fixpoint code_points (s : jsstring) : list Z :=
  match s with
  | [] => []
  | c :: t =>
      match t with
      | d :: t' =>
          if is_high c && is_low d
          then (0x10000 + (c - 0xD800) * 0x400 + (d - 0xDC00)) :: code_points t'
          else c :: code_points t
      | [] => [c]
      end
  end.

(** UTF16EncodeCodePoint. *)
Definition utf16_of_cp (cp : Z) : jsstring :=
  if cp <? 0x10000 then [cp]
  else [0xD800 + (cp - 0x10000) / 0x400; 0xDC00 + (cp - 0x10000) mod 0x400].

(** [String.prototype.repeat]: a negative count is a RangeError. *)
Definition js_repeat (s : jsstring) (count : Z) : result jsstring :=
  if count <? 0 then Throw RangeError
  else Ok (concat (replicate (Z.to_nat count) s)).

(** White space and line terminators, the characters [trim] strips. *)
Definition is_space (c : Z) : bool :=
  (c =? 0x09) || (c =? 0x0A) || (c =? 0x0B) || (c =? 0x0C) || (c =? 0x0D)
  || (c =? 0x20) || (c =? 0xA0) || (c =? 0x1680)
  || ((0x2000 <=? c) && (c <=? 0x200A))
  || (c =? 0x2028) || (c =? 0x2029) || (c =? 0x202F) || (c =? 0x205F)
  || (c =? 0x3000) || (c =? 0xFEFF).

Fixpoint trim_start (s : jsstring) : jsstring :=
  match s with
  | c :: t => if is_space c then trim_start t else s
  | [] => []
  end.

Definition trim (s : jsstring) : jsstring :=
  rev (trim_start (rev (trim_start s))).

End JSString.

(* ================================================================== *)
(** * UTF-8 *)
(* ================================================================== *)

Module UTF8.
Import JSString.

(** The bytes of one scalar value. *)
Definition of_cp (cp : Z) : list Z :=
  if cp <? 0x80 then [cp]
  else if cp <? 0x800 then [0xC0 + cp / 64; 0x80 + cp mod 64]
  else if cp <? 0x10000 then
    [0xE0 + cp / 4096; 0x80 + (cp / 64) mod 64; 0x80 + cp mod 64]
  else
    [0xF0 + cp / 262144; 0x80 + (cp / 4096) mod 64;
     0x80 + (cp / 64) mod 64; 0x80 + cp mod 64].

(** How Node encodes a string as UTF-8 ([Buffer.byteLength], [buf.write],
    [hash.update]): a lone surrogate becomes U+FFFD. *)
Definition encode_cp (cp : Z) : list Z :=
  if is_surrogate cp then [0xEF; 0xBF; 0xBD] else of_cp cp.

Definition encode (s : jsstring) : list Z :=
  concat (encode_cp <$> code_points s).

Definition is_cont (b : Z) : bool := (0x80 <=? b) && (b <? 0xC0).

(** A strict decoder (RFC 3629) to UTF-16: no overlong forms, no encoded
    surrogates, nothing above U+10FFFF. The plugin has no decoder; this is
    the reader's side of a frame. *)
Fixpoint decode (bs : list Z) : option jsstring :=
  match bs with
  | [] => Some []
  | b0 :: t0 =>
    if (0 <=? b0) && (b0 <? 0x80) then cons b0 <$> decode t0
    else
      match t0 with
      | [] => None
      | b1 :: t1 =>
        if (0xC2 <=? b0) && (b0 <? 0xE0) then
          if is_cont b1
          then cons ((b0 - 0xC0) * 64 + (b1 - 0x80)) <$> decode t1
          else None
        else
          match t1 with
          | [] => None
          | b2 :: t2 =>
            if (0xE0 <=? b0) && (b0 <? 0xF0) then
              let cp := (b0 - 0xE0) * 4096 + (b1 - 0x80) * 64 + (b2 - 0x80) in
              if is_cont b1 && is_cont b2 && (0x800 <=? cp)
                 && negb (is_surrogate cp)
              then cons cp <$> decode t2
              else None
            else
              match t2 with
              | [] => None
              | b3 :: t3 =>
                if (0xF0 <=? b0) && (b0 <? 0xF8) then
                  let cp := (b0 - 0xF0) * 262144 + (b1 - 0x80) * 4096
                            + (b2 - 0x80) * 64 + (b3 - 0x80) in
                  if is_cont b1 && is_cont b2 && is_cont b3
                     && (0x10000 <=? cp) && (cp <? 0x110000)
                  then app (utf16_of_cp cp) <$> decode t3
                  else None
                else None
              end
          end
      end
  end.

(** [Buffer.byteLength(s)]. *)
Definition byteLength (s : jsstring) : Z := Z.of_nat (length (encode s)).

End UTF8.

(** ** Well-formed UTF-16 *)

Module WellFormed.
Import JSString.

(** No lone surrogate, every unit in range. *)
Inductive wf : jsstring -> Prop :=
| wf_nil : wf []
| wf_unit c s :
    0 <= c < 0x10000 -> is_surrogate c = false -> wf s -> wf (c :: s)
| wf_pair h l s :
    is_high h = true -> is_low l = true -> wf s -> wf (h :: l :: s).

#[export] Hint Constructors wf : core.

End WellFormed.

(* ================================================================== *)
(** * JSON.stringify *)
(* ================================================================== *)

(** The values the plugin serializes: plain data. An object is the list of
    its own enumerable properties in enumeration order. A number is an
    integer of the range in which JavaScript prints all the digits (below
    10^21 in absolute value); fractions are outside this model. *)
#[local] Unset Elimination Schemes.
Inductive jsval : Type :=
| JUndefined
| JNull
| JBool (b : bool)
| JNumber (n : Z)
| JString (s : jsstring)
| JArray (elems : list jsval)
| JObject (props : list (jsstring * jsval)).
#[local] Set Elimination Schemes.

Module JSON.
Import JSString.

Definition hex_digit (d : Z) : Z := if d <? 10 then 48 + d else 87 + d.

(** UnicodeEscape: a backslash, [u] and four lowercase hexadecimal digits. *)
Definition unicode_escape (c : Z) : jsstring :=
  [92; 117; hex_digit ((c / 4096) mod 16); hex_digit ((c / 256) mod 16);
   hex_digit ((c / 16) mod 16); hex_digit (c mod 16)].

Definition quote_cp (cp : Z) : jsstring :=
  if cp =? 0x08 then lit "\b"
  else if cp =? 0x09 then lit "\t"
  else if cp =? 0x0A then lit "\n"
  else if cp =? 0x0C then lit "\f"
  else if cp =? 0x0D then lit "\r"
  else if cp =? 0x22 then [92; 34]
  else if cp =? 0x5C then [92; 92]
  else if (cp <? 0x20) || is_surrogate cp then unicode_escape cp
  else utf16_of_cp cp.

(** QuoteJSONString. *)
Definition quote (s : jsstring) : jsstring :=
  34 :: concat (quote_cp <$> code_points s) ++ [34].

Definition number_to_string (n : Z) : jsstring :=
  lit (NilZero.string_of_int (Z.to_int n)).

Fixpoint join (sep : jsstring) (l : list jsstring) : jsstring :=
  match l with
  | [] => []
  | [x] => x
  | x :: t => x ++ sep ++ join sep t
  end.

(** SerializeJSONProperty: [None] is JavaScript's [undefined] result. A
    property whose value serializes to [undefined] is left out of its
    object; such an element of an array is written [null]. *)
Fixpoint serialize (v : jsval) : option jsstring :=
  match v with
  | JUndefined => None
  | JNull => Some (lit "null")
  | JBool b => Some (if b then lit "true" else lit "false")
  | JNumber n => Some (number_to_string n)
  | JString s => Some (quote s)
  | JArray elems =>
      Some (lit "[" ++
            join (lit ",")
              (map (fun e => match serialize e with
                             | Some t => t
                             | None => lit "null"
                             end) elems)
            ++ lit "]")
  | JObject props =>
      Some (lit "{" ++
            join (lit ",")
              (concat
                 (map (fun p => match serialize (snd p) with
                                | Some t => [quote (fst p) ++ lit ":" ++ t]
                                | None => []
                                end) props))
            ++ lit "}")
  end.

(** [JSON.stringify(v)]. *)
Definition stringify (v : jsval) : option jsstring := serialize v.

(** Every string and property name of a value is a JavaScript string. *)
Fixpoint valid_value (v : jsval) : bool :=
  match v with
  | JString s => valid s
  | JArray elems => forallb valid_value elems
  | JObject props =>
      forallb (fun p => valid (fst p) && valid_value (snd p)) props
  | _ => true
  end.

End JSON.

(** ** Induction on values, through their arrays and objects *)

Module JSONInduction.

Section Induction.
Variable P : jsval -> Prop.
Hypothesis P_undefined : P JUndefined.
Hypothesis P_null : P JNull.
Hypothesis P_bool : forall b, P (JBool b).
Hypothesis P_number : forall n, P (JNumber n).
Hypothesis P_string : forall s, P (JString s).
Hypothesis P_array : forall elems, Forall P elems -> P (JArray elems).
Hypothesis P_object :
  forall props, Forall (fun p => P (snd p)) props -> P (JObject props).

Fixpoint jsval_ind (v : jsval) : P v :=
  match v with
  | JUndefined => P_undefined
  | JNull => P_null
  | JBool b => P_bool b
  | JNumber n => P_number n
  | JString s => P_string s
  | JArray elems =>
      P_array elems
        ((fix all (l : list jsval) : Forall P l :=
            match l with
            | [] => List.Forall_nil P
            | e :: t => List.Forall_cons P e t (jsval_ind e) (all t)
            end) elems)
  | JObject props =>
      P_object props
        ((fix all (l : list (jsstring * jsval))
            : Forall (fun p => P (snd p)) l :=
            match l with
            | [] => List.Forall_nil _
            | p :: t =>
                List.Forall_cons (fun p => P (snd p)) p t (jsval_ind (snd p)) (all t)
            end) props)
  end.
End Induction.

End JSONInduction.

(* ================================================================== *)
(** * SHA-1 and base64 ([node:crypto]) *)
(* ================================================================== *)

Module SHA1.

Definition w32 (x : Z) : Z := x mod 2 ^ 32.

Definition rotl (n x : Z) : Z :=
  w32 (Z.lor (Z.shiftl x n) (Z.shiftr x (32 - n))).

(** The message followed by the bit 1, zeros, and its length in bits as a
    64-bit big-endian integer, a multiple of 64 bytes in all. *)
Definition be_bytes (n : nat) (x : Z) : list Z :=
  (fun i => (x / 256 ^ Z.of_nat i) mod 256) <$> rev (seq 0 n).

Definition pad (msg : list Z) : list Z :=
  let len := Z.of_nat (length msg) in
  let zeros := (55 - len) mod 64 in
  msg ++ [0x80] ++ replicate (Z.to_nat zeros) 0 ++ be_bytes 8 (8 * len).

Fixpoint be_words (bs : list Z) : list Z :=
  match bs with
  | b0 :: b1 :: b2 :: b3 :: t =>
      (((b0 * 256 + b1) * 256 + b2) * 256 + b3) :: be_words t
  | _ => []
  end.

Definition f (t b c d : Z) : Z :=
  if t <? 20 then Z.lor (Z.land b c) (Z.land (w32 (Z.lnot b)) d)
  else if t <? 40 then Z.lxor (Z.lxor b c) d
  else if t <? 60 then Z.lor (Z.lor (Z.land b c) (Z.land b d)) (Z.land c d)
  else Z.lxor (Z.lxor b c) d.

Definition k (t : Z) : Z :=
  if t <? 20 then 0x5A827999
  else if t <? 40 then 0x6ED9EBA1
  else if t <? 60 then 0x8F1BBCDC
  else 0xCA62C1D6.

Definition hash_state : Type := Z * Z * Z * Z * Z.

(** [win] holds the sixteen words of the message schedule from round [t]
    on; each round uses the first and appends the word sixteen rounds on. *)
Fixpoint rounds (n : nat) (t : Z) (win : list Z) (s : hash_state) : hash_state :=
  match n with
  | O => s
  | S n' =>
      let '(a, b, c, d, e) := s in
      let w := nth 0 win 0 in
      let next := rotl 1 (Z.lxor (Z.lxor (Z.lxor (nth 13 win 0) (nth 8 win 0))
                                         (nth 2 win 0)) w) in
      let temp := w32 (rotl 5 a + f t b c d + e + k t + w) in
      rounds n' (t + 1) (tl win ++ [next]) (temp, a, rotl 30 b, c, d)
  end.

Definition compress (s : hash_state) (block : list Z) : hash_state :=
  let '(a, b, c, d, e) := s in
  let '(a', b', c', d', e') := rounds 80 0 (be_words block) s in
  (w32 (a + a'), w32 (b + b'), w32 (c + c'), w32 (d + d'), w32 (e + e')).

Fixpoint blocks (n : nat) (bs : list Z) (s : hash_state) : hash_state :=
  match n with
  | O => s
  | S n' => blocks n' (drop 64 bs) (compress s (take 64 bs))
  end.

Definition initial : hash_state :=
  (0x67452301, 0xEFCDAB89, 0x98BADCFE, 0x10325476, 0xC3D2E1F0).

(** The 20 bytes of the digest. *)
Definition digest (msg : list Z) : list Z :=
  let p := pad msg in
  let '(a, b, c, d, e) := blocks (length p / 64) p initial in
  be_bytes 4 a ++ be_bytes 4 b ++ be_bytes 4 c ++ be_bytes 4 d ++ be_bytes 4 e.

End SHA1.

Module Base64.

Definition char (i : Z) : Z :=
  if i <? 26 then 65 + i
  else if i <? 52 then 97 + (i - 26)
  else if i <? 62 then 48 + (i - 52)
  else if i =? 62 then 43
  else 47.

(** Three bytes give four characters; one or two left over are padded
    with [=]. *)
Fixpoint encode (bs : list Z) : jsstring :=
  match bs with
  | [] => []
  | [b0] => [char (b0 / 4); char ((b0 mod 4) * 16); 61; 61]
  | [b0; b1] =>
      [char (b0 / 4); char ((b0 mod 4) * 16 + b1 / 16);
       char ((b1 mod 16) * 4); 61]
  | b0 :: b1 :: b2 :: t =>
      char (b0 / 4) :: char ((b0 mod 4) * 16 + b1 / 16)
      :: char ((b1 mod 16) * 4 + b2 / 64) :: char (b2 mod 64) :: encode t
  end.

End Base64.

(* ================================================================== *)
(** * [Buffer] *)
(* ================================================================== *)

Module Buffer.
Import JSString.

(** A buffer is its bytes. [Buffer.alloc] gives zeros. *)
Definition alloc (size : Z) : list Z := replicate (Z.to_nat size) 0.

(** [buf.writeUInt8(value, offset)]: a value outside a byte or an offset
    outside the buffer is a RangeError. *)
Definition writeUInt8 (value offset : Z) (buf : list Z) : result (list Z) :=
  if (0 <=? offset) && (offset + 1 <=? Z.of_nat (length buf))
     && (0 <=? value) && (value <=? 0xFF)
  then Ok (<[Z.to_nat offset := value]> buf)
  else Throw RangeError.

(** [buf.writeUInt16BE(value, offset)]: high byte first. *)
Definition writeUInt16BE (value offset : Z) (buf : list Z) : result (list Z) :=
  if (0 <=? offset) && (offset + 2 <=? Z.of_nat (length buf))
     && (0 <=? value) && (value <=? 0xFFFF)
  then Ok (<[S (Z.to_nat offset) := value mod 256]>
             (<[Z.to_nat offset := value / 256]> buf))
  else Throw RangeError.

(** The characters that fit into [room] bytes, whole characters only. *)
Fixpoint fitting (chars : list (list Z)) (room : nat) : list Z :=
  match chars with
  | [] => []
  | ch :: t =>
      if (length ch <=? room)%nat
      then ch ++ fitting t (room - length ch)
      else []
  end.

(** [buf.write(string, offset)]: the UTF-8 bytes of the string from
    [offset] on, as many whole characters as fit. *)
Definition write (s : jsstring) (offset : Z) (buf : list Z) : result (list Z) :=
  if (0 <=? offset) && (offset <=? Z.of_nat (length buf)) then
    let o := Z.to_nat offset in
    let bytes := fitting (UTF8.encode_cp <$> code_points s) (length buf - o) in
    Ok (take o buf ++ bytes ++ drop (o + length bytes) buf)
  else Throw RangeError.

End Buffer.

(* ================================================================== *)
(** * The frame encoder *)
(* ================================================================== *)

(** [constructReply(data)]. [JSON.stringify] gives [undefined] for a value
    that has no JSON text, and [Buffer.byteLength(undefined)] is a
    TypeError. *)
Definition constructReply (data : jsval) : result (list Z) :=
  match JSON.stringify data with
  | None => Throw TypeError
  | Some json =>
      let jsonByteLength := UTF8.byteLength json in
      let lengthByteCount := if jsonByteLength <? 126 then 0 else 2 in
      let payloadLength :=
        if lengthByteCount =? 0 then jsonByteLength else 126 in
      let buffer := Buffer.alloc (2 + lengthByteCount + jsonByteLength) in
      buffer ← Buffer.writeUInt8 129 0 buffer;
      buffer ← Buffer.writeUInt8 payloadLength 1 buffer;
      let payloadOffset := 2 in
      '(buffer, payloadOffset) ←
        (if 0 <? lengthByteCount
         then buffer ← Buffer.writeUInt16BE jsonByteLength 2 buffer;
              Ok (buffer, payloadOffset + lengthByteCount)
         else Ok (buffer, payloadOffset));
      buffer ← Buffer.write json payloadOffset buffer;
      Ok buffer
  end.

(* ================================================================== *)
(** * The plugin's state *)
(* ================================================================== *)

(** Modelled from the spec: the [SongInfo] type is declared in
    providers/song-info, outside src/. It is a record with at least [title],
    [artist] and [elapsedSeconds]; the further properties are kept as they
    are. The properties are enumerated in this order. *)
Record SongInfo : Type := {
  title : jsstring;
  artist : jsstring;
  elapsedSeconds : Z;
  others : list (jsstring * jsval)
}.

Definition set_title (v : jsstring) (i : SongInfo) : SongInfo :=
  {| title := v; artist := artist i;
     elapsedSeconds := elapsedSeconds i; others := others i |}.

Definition set_artist (v : jsstring) (i : SongInfo) : SongInfo :=
  {| title := title i; artist := v;
     elapsedSeconds := elapsedSeconds i; others := others i |}.

(** The object as [JSON.stringify] walks it. *)
Definition SongInfo_value (i : SongInfo) : jsval :=
  JObject ((JSString.lit "title", JString (title i))
           :: (JSString.lit "artist", JString (artist i))
           :: (JSString.lit "elapsedSeconds", JNumber (elapsedSeconds i))
           :: others i).

(** Objects are referred to by reference. *)
Definition ref : Type := positive.
(** A socket or stream of the runtime, known by its identity. *)
Definition Socket : Type := nat.
(** A response object of an HTTP request. *)
Definition Response : Type := nat.

(** ** Objects with numeric keys

    [httpSockets] and [wsSockets] are plain objects used as maps from a
    connection identifier. Their properties are enumerated by ascending
    key; an identifier is never smaller than the ones before it, so this
    is also the order of insertion. *)
Module Obj.
Section Obj.
Context {V : Type}.

(** [o[k] = v] *)
Fixpoint set (k : Z) (v : V) (o : list (Z * V)) : list (Z * V) :=
  match o with
  | [] => [(k, v)]
  | (k', v') :: t =>
      if k <? k' then (k, v) :: o
      else if k =? k' then (k, v) :: t
      else (k', v') :: set k v t
  end.

(** [delete o[k]] *)
Fixpoint delete (k : Z) (o : list (Z * V)) : list (Z * V) :=
  match o with
  | [] => []
  | (k', v') :: t => if k =? k' then delete k t else (k', v') :: delete k t
  end.

(** [o[k]] *)
Fixpoint get (k : Z) (o : list (Z * V)) : option V :=
  match o with
  | [] => None
  | (k', v') :: t => if k =? k' then Some v' else get k t
  end.

(** [Object.values(o)] *)
Definition values (o : list (Z * V)) : list V := snd <$> o.
End Obj.
End Obj.

(** The [State] interface and the module's [state] object. *)
Record State : Type := {
  ready : bool;
  httpServer : option unit;
  httpSockets : list (Z * Socket);
  wsSockets : list (Z * Socket);
  nextSocketId : Z;
  lastSongInfo : option ref
}.

Definition initial_state : State :=
  {| ready := false; httpServer := None; httpSockets := []; wsSockets := [];
     nextSocketId := 0; lastSongInfo := None |}.

(** What the plugin does to the outside, in order. *)
Inductive event : Type :=
| Listen (port : Z)
| ServerClose
| SocketWrite (socket : Socket) (bytes : list Z)
| SocketDestroy (socket : Socket)
| Respond (res : Response) (status : Z)
    (headers : list (jsstring * jsstring)) (body : jsstring).

(** The state, the objects of type [SongInfo] that references point to, and
    the effects so far. *)
Record World : Type := {
  state : State;
  heap : gmap ref SongInfo;
  trace : list event
}.

Definition initial_world : World :=
  {| state := initial_state; heap := ∅; trace := [] |}.

Definition with_state (f : State -> State) (w : World) : World :=
  {| state := f (state w); heap := heap w; trace := trace w |}.

Definition with_heap (f : gmap ref SongInfo -> gmap ref SongInfo) (w : World)
  : World :=
  {| state := state w; heap := f (heap w); trace := trace w |}.

Definition emit (e : event) (w : World) : World :=
  {| state := state w; heap := heap w; trace := trace w ++ [e] |}.

Definition set_ready (b : bool) (s : State) : State :=
  {| ready := b; httpServer := httpServer s; httpSockets := httpSockets s;
     wsSockets := wsSockets s; nextSocketId := nextSocketId s;
     lastSongInfo := lastSongInfo s |}.

Definition set_httpServer (v : option unit) (s : State) : State :=
  {| ready := ready s; httpServer := v; httpSockets := httpSockets s;
     wsSockets := wsSockets s; nextSocketId := nextSocketId s;
     lastSongInfo := lastSongInfo s |}.

Definition set_httpSockets (v : list (Z * Socket)) (s : State) : State :=
  {| ready := ready s; httpServer := httpServer s; httpSockets := v;
     wsSockets := wsSockets s; nextSocketId := nextSocketId s;
     lastSongInfo := lastSongInfo s |}.

Definition set_wsSockets (v : list (Z * Socket)) (s : State) : State :=
  {| ready := ready s; httpServer := httpServer s; httpSockets := httpSockets s;
     wsSockets := v; nextSocketId := nextSocketId s;
     lastSongInfo := lastSongInfo s |}.

Definition set_nextSocketId (v : Z) (s : State) : State :=
  {| ready := ready s; httpServer := httpServer s; httpSockets := httpSockets s;
     wsSockets := wsSockets s; nextSocketId := v;
     lastSongInfo := lastSongInfo s |}.

Definition set_lastSongInfo (v : option ref) (s : State) : State :=
  {| ready := ready s; httpServer := httpServer s; httpSockets := httpSockets s;
     wsSockets := wsSockets s; nextSocketId := nextSocketId s;
     lastSongInfo := v |}.

(** ** Statements: state passing with exceptions

    A statement runs in a world and either completes with a value or
    throws; what it did before throwing stays done. *)
Definition M (A : Type) : Type := World -> result A * World.

Definition ret {A} (a : A) : M A := fun w => (Ok a, w).
Definition throw {A} (e : jserror) : M A := fun w => (Throw e, w).
Definition bind {A B} (m : M A) (f : A -> M B) : M B :=
  fun w => match m w with
           | (Ok a, w') => f a w'
           | (Throw e, w') => (Throw e, w')
           end.
Definition get_world : M World := fun w => (Ok w, w).
Definition modify (f : World -> World) : M unit := fun w => (Ok tt, f w).
Definition lift {A} (r : result A) : M A := fun w => (r, w).

Declare Scope stmt_scope.
Delimit Scope stmt_scope with stmt.
Notation "'let!' x := m 'in' k" := (bind m (fun x => k))
  (at level 10, x name, m at level 100, k at level 200) : stmt_scope.
Notation "m ;; k" := (bind m (fun _ => k))
  (at level 100, k at level 200, right associativity) : stmt_scope.

(** [forEach]: the callback on each element in turn; an exception ends
    the loop. *)
Fixpoint forEach {A} (l : list A) (f : A -> M unit) : M unit :=
  match l with
  | [] => ret tt
  | x :: t => bind (f x) (fun _ => forEach t f)
  end.

(* ================================================================== *)
(** * The back end *)
(* ================================================================== *)

Module Backend.
Import JSString.
Local Open Scope stmt_scope.

(** [n++] on a JavaScript number: exact up to 2^53, where adding one no
    longer changes the value. The result is the value before. *)
Definition post_increment (n : Z) : Z := if n <? 2 ^ 53 then n + 1 else n.

Definition next_id : M Z := fun w =>
  let id := nextSocketId (state w) in
  (Ok id, with_state (set_nextSocketId (post_increment id)) w).

(** [state.lastSongInfo] as a value: the object it refers to, or
    [undefined]. *)
Definition lastSongInfo_value (w : World) : jsval :=
  match lastSongInfo (state w) with
  | Some r =>
      match heap w !! r with
      | Some i => SongInfo_value i
      | None => JUndefined
      end
  | None => JUndefined
  end.

(** The object literal [{ songInfo: state.lastSongInfo }]. *)
Definition songInfo_object (w : World) : jsval :=
  JObject [(lit "songInfo", lastSongInfo_value w)].

Definition socket_write (socket : Socket) (bytes : list Z) : M unit :=
  modify (emit (SocketWrite socket bytes)).

(** ** [start] *)

(** [createServer(...).listen(23232, ...)] and the handlers below. *)
Definition start : M unit :=
  modify (with_state (set_httpServer (Some tt)));;
  modify (emit (Listen 23232)).

(** The callback of [listen]. *)
Definition on_listening : M unit := modify (with_state (set_ready true)).

(** The request handler of [createServer]. *)
Definition on_request (res : Response) : M unit :=
  let! w := get_world in
  match JSON.stringify (songInfo_object w) with
  | None => throw TypeError
  | Some json =>
      modify (emit (Respond res 200
        [(lit "Content-Type", lit "application/json");
         (lit "Access-Control-Allow-Origin", lit "*");
         (lit "Content-Length", JSON.number_to_string (UTF8.byteLength json))]
        json))
  end.

(** The handler of ['connection'], and of ['close'] on its socket. *)
Definition on_connection (socket : Socket) : M Z :=
  let! id := next_id in
  modify (with_state (fun s =>
    set_httpSockets (Obj.set id socket (httpSockets s)) s));;
  ret id.

Definition on_close (id : Z) : M unit :=
  modify (with_state (fun s =>
    set_httpSockets (Obj.delete id (httpSockets s)) s)).

(** ** The handler of ['upgrade'] *)

(** The one header of the request that the handler reads:
    [req.headers['sec-websocket-key']], [undefined] when absent. *)
Record IncomingMessage : Type := { sec_websocket_key : option jsstring }.

Definition magic : jsstring := lit "258EAFA5-E914-47DA-95CA-C5AB0DC85B11".

(** [req.headers['sec-websocket-key']?.trim() + '258E...']: string
    concatenation turns [undefined] into the text [undefined]. *)
Definition key (req : IncomingMessage) : jsstring :=
  match sec_websocket_key req with
  | Some h => trim h
  | None => lit "undefined"
  end ++ magic.

(** [sha1.update(key); sha1.digest('base64')] *)
Definition responseKey (req : IncomingMessage) : jsstring :=
  Base64.encode (SHA1.digest (UTF8.encode (key req))).

Definition crlf : jsstring := [13; 10].

Definition handshake (req : IncomingMessage) : jsstring :=
  lit "HTTP/1.1 101 Web Socket Protocol Handshake" ++ crlf
  ++ lit "Upgrade: WebSocket" ++ crlf
  ++ lit "Connection: Upgrade" ++ crlf
  ++ lit "Sec-WebSocket-Accept: " ++ responseKey req ++ crlf
  ++ crlf.

(** Lines 84-85: the identifier and the entry in [wsSockets]. *)
Definition upgrade_register (socket : Socket) : M Z :=
  let! id := next_id in
  modify (with_state (fun s =>
    set_wsSockets (Obj.set id socket (wsSockets s)) s));;
  ret id.

(** Lines 88-118: the response and the first frame. *)
Definition upgrade_respond (req : IncomingMessage) (socket : Socket) : M unit :=
  socket_write socket (UTF8.encode (handshake req));;
  let! w := get_world in
  let! frame := lift (constructReply (songInfo_object w)) in
  socket_write socket frame.

Definition on_upgrade (req : IncomingMessage) (socket : Socket) : M Z :=
  let! id := upgrade_register socket in
  upgrade_respond req socket;;
  ret id.

(** The handler of ['end'] on an upgraded socket. *)
Definition on_end (id : Z) : M unit :=
  modify (with_state (fun s =>
    set_wsSockets (Obj.delete id (wsSockets s)) s)).

(** ** [stop] *)

Definition stop : M unit :=
  let! w := get_world in
  match httpServer (state w) with
  | Some _ =>
      modify (emit ServerClose);;
      forEach (Obj.values (wsSockets (state w)))
        (fun socket => modify (emit (SocketDestroy socket)));;
      forEach (Obj.values (httpSockets (state w)))
        (fun socket => modify (emit (SocketDestroy socket)))
  | None => ret tt
  end.

(** ** [updateActivity] *)

(** Reading a property of the object behind a reference. *)
Definition deref (r : ref) : M SongInfo := fun w =>
  match heap w !! r with
  | Some i => (Ok i, w)
  | None => (Throw TypeError, w)
  end.

(** Assigning to a property of the object behind a reference. *)
Definition update_object (r : ref) (f : SongInfo -> SongInfo) : M unit :=
  modify (with_heap (alter f r)).

Definition hangulFillerUnicodeCharacter : jsstring := [0x3164].

Definition updateActivity (songInfo : ref) : M unit :=
  let! i := deref songInfo in
  if (js_length (title i) =? 0) && (js_length (artist i) =? 0) then ret tt
  else
    modify (with_state (set_lastSongInfo (Some songInfo)));;
    let! w := get_world in
    if negb (ready (state w)) then ret tt
    else
      (let! i := deref songInfo in
       if js_length (title i) <? 2 then
         let! fill := lift (js_repeat hangulFillerUnicodeCharacter
                              (2 - js_length (title i))) in
         update_object songInfo (set_title (title i ++ fill))
       else ret tt);;
      (let! i := deref songInfo in
       if js_length (artist i) <? 2 then
         let! fill := lift (js_repeat hangulFillerUnicodeCharacter
                              (2 - js_length (title i))) in
         update_object songInfo (set_artist (artist i ++ fill))
       else ret tt);;
      let! w := get_world in
      forEach (Obj.values (wsSockets (state w)))
        (fun socket =>
           let! w := get_world in
           let! frame := lift (constructReply (songInfo_object w)) in
           socket_write socket frame).

(** [onConfigChange]: the configuration is not used by [updateActivity]. *)
Definition onConfigChange : M unit :=
  let! w := get_world in
  match lastSongInfo (state w) with
  | Some r => updateActivity r
  | None => ret tt
  end.

End Backend.


(* ================================================================== *)
(** * The specification's side *)
(* ================================================================== *)

Module Spec.
Import JSString Backend.

(** The accept token in the specification's words (4.1): the key, then the
    magic constant; SHA-1 of the UTF-8 bytes; base64. *)
Definition computeAcceptToken (nonce : jsstring) : jsstring :=
  Base64.encode
    (SHA1.digest
       (UTF8.encode (nonce ++ lit "258EAFA5-E914-47DA-95CA-C5AB0DC85B11"))).

(** Right-padding with the filler glyph up to length 2 (4.4). *)
Definition pad_to_2 (s : jsstring) : jsstring :=
  s ++ replicate (2 - length s) 0x3164.

(** The events a handler added to the trace. *)
Definition added (w w' : World) : list event :=
  drop (length (trace w)) (trace w').

(** A rejected upgrade (4.1, 7): nothing is sent on the socket, the socket
    is closed, and the upgraded registry does not hold it. *)
Definition rejected (socket : Socket) (w w' : World) : Prop :=
  (forall bytes, SocketWrite socket bytes ∉ added w w')
  /\ SocketDestroy socket ∈ added w w'
  /\ socket ∉ Obj.values (wsSockets (state w')).

(** The content of a pushed frame in the specification's words (6): an
    object whose [playbackInfo] is the current info, or [null]. *)
Definition playbackInfo_object (w : World) : jsval :=
  JObject [(lit "playbackInfo",
            match lastSongInfo (state w) with
            | Some r =>
                match heap w !! r with
                | Some i => SongInfo_value i
                | None => JNull
                end
            | None => JNull
            end)].

(** [stop] in the specification's words (4.5): both registries end empty
    and [ready] is false. *)
Definition stopped (s : State) : Prop :=
  httpSockets s = [] /\ wsSockets s = [] /\ ready s = false.

End Spec.

(* ================================================================== *)
(** * Concrete situations *)
(* ================================================================== *)

Module Scenarios.
Import JSString Backend.

(** The JSON text of an info, and a quoted word. *)
Definition SongInfo_json (i : SongInfo) : jsstring :=
  match JSON.stringify (SongInfo_value i) with
  | Some t => t
  | None => []
  end.

Definition quoted (s : string) : jsstring := [34] ++ lit s ++ [34].

Definition info_of (t a : string) : SongInfo :=
  {| title := lit t; artist := lit a; elapsedSeconds := 0; others := [] |}.

(** No title, no artist. *)
Definition blank_info : SongInfo :=
  {| title := []; artist := []; elapsedSeconds := 0; others := [] |}.

(** The server listens; one plain connection (identifier 0, socket 7) and
    one upgraded connection (identifier 1, socket 8) are open; the caller
    holds an info at reference 1 and nothing is stored yet. *)
Definition listening (i : SongInfo) : World :=
  {| state := {| ready := true; httpServer := Some tt;
                 httpSockets := [(0, 7%nat)]; wsSockets := [(1, 8%nat)];
                 nextSocketId := 2; lastSongInfo := None |};
     heap := {[ 1%positive := i ]};
     trace := [] |}.

(** The same before the port is bound. *)
Definition starting (i : SongInfo) : World :=
  {| state := {| ready := false; httpServer := Some tt;
                 httpSockets := []; wsSockets := [];
                 nextSocketId := 0; lastSongInfo := None |};
     heap := {[ 1%positive := i ]};
     trace := [] |}.

(** The nonce of RFC 6455. *)
Definition sample_request : IncomingMessage :=
  {| sec_websocket_key := Some (lit "dGhlIHNhbXBsZSBub25jZQ==") |}.

End Scenarios.

(* ================================================================== *)
(** * The callbacks registered on [ready-to-show] *)
(* ================================================================== *)

(** The plugin's configuration (index.ts). *)
Record WebsocketPluginConfig : Type := { enabled : bool }.

(** The default of [createPlugin]. *)
Definition default_config : WebsocketPluginConfig := {| enabled := false |}.

Definition set_elapsedSeconds (v : Z) (i : SongInfo) : SongInfo :=
  {| title := title i; artist := artist i;
     elapsedSeconds := v; others := others i |}.

Module ReadyToShow.
Import Backend.

(** What the two callbacks share besides [state]: [this.config] and the
    local variables [lastSongInfo] and [lastSent] of lines 122 and 128. *)
Record Closure : Type := {
  config : option WebsocketPluginConfig;
  lastSongInfo : option ref;
  lastSent : Z
}.

(** The handler of [ready-to-show] itself: [lastSongInfo] is not assigned
    yet and [lastSent] is [Date.now()]. *)
Definition ready_to_show (config : option WebsocketPluginConfig) (now : Z)
  : Closure :=
  {| config := config; lastSongInfo := None; lastSent := now |}.

(** The callback given to [registerCallback] (lines 123-126). *)
Definition on_songInfo (songInfo : ref) (c : Closure) (w : World)
  : result unit * Closure * World :=
  let c' := {| config := config c; lastSongInfo := Some songInfo;
               lastSent := lastSent c |} in
  match config c' with
  | Some _ => let '(r, w') := updateActivity songInfo w in (r, c', w')
  | None => (Ok tt, c', w)
  end.

(** The listener of [ytmd:time-changed] (lines 129-140); [currentTime] is
    what [Date.now()] returns in it. *)
Definition on_time_changed (t currentTime : Z) (c : Closure) (w : World)
  : result unit * Closure * World :=
  if 5000 <? currentTime - lastSent c then
    let c' := {| config := config c; lastSongInfo := lastSongInfo c;
                 lastSent := currentTime |} in
    match lastSongInfo c' with
    | Some r =>
        let w1 := with_heap (alter (set_elapsedSeconds t) r) w in
        match config c' with
        | Some _ => let '(res, w2) := updateActivity r w1 in (res, c', w2)
        | None => (Ok tt, c', w1)
        end
    | None => (Ok tt, c', w)
    end
  else (Ok tt, c, w).

(** A series of [ytmd:time-changed] events, each with its [Date.now()]. An
    exception of a listener does not stop the later events. *)
Fixpoint time_changes (events : list (Z * Z)) (c : Closure) (w : World)
  : Closure * World :=
  match events with
  | [] => (c, w)
  | (t, currentTime) :: rest =>
      let '(_, c', w') := on_time_changed t currentTime c w in
      time_changes rest c' w'
  end.

(** [onConfigChange] with the assignment to [this.config]. *)
Definition onConfigChange (newConfig : WebsocketPluginConfig)
  (c : Closure) (w : World) : result unit * Closure * World :=
  let c' := {| config := Some newConfig; lastSongInfo := lastSongInfo c;
               lastSent := lastSent c |} in
  let '(r, w') := Backend.onConfigChange w in (r, c', w').

End ReadyToShow.

(* ================================================================== *)
(** * Runs of the plugin *)
(* ================================================================== *)

Module Runs.
Import Backend.
Local Open Scope stmt_scope.

(** The entry points: the methods of the back end and the callbacks it
    registers. *)
Inductive handler : Type :=
| HStart
| HListening
| HRequest (res : Response)
| HConnection (socket : Socket)
| HClose (id : Z)
| HUpgrade (req : IncomingMessage) (socket : Socket)
| HEnd (id : Z)
| HStop
| HUpdateActivity (songInfo : ref)
| HConfigChange.

Definition run (h : handler) : M unit :=
  match h with
  | HStart => start
  | HListening => on_listening
  | HRequest res => on_request res
  | HConnection socket => on_connection socket;; ret tt
  | HClose id => on_close id
  | HUpgrade req socket => on_upgrade req socket;; ret tt
  | HEnd id => on_end id
  | HStop => stop
  | HUpdateActivity songInfo => updateActivity songInfo
  | HConfigChange => onConfigChange
  end.

(** The world a handler leaves, whether it returns or throws. *)
Definition after (h : handler) (w : World) : World := snd (run h w).

(** One step: a handler runs to its end, or the rest of the program
    creates or changes an info object. *)
Inductive step : World -> World -> Prop :=
| step_handler (h : handler) (w : World) : step w (after h w)
| step_heap (f : gmap ref SongInfo -> gmap ref SongInfo) (w : World) :
    step w (with_heap f w).

(** The worlds after [n] steps from the start of the process. *)
Inductive reachable : nat -> World -> Prop :=
| reachable_start (h : gmap ref SongInfo) :
    reachable 0 {| state := initial_state; heap := h; trace := [] |}
| reachable_step (n : nat) (w w' : World) :
    reachable n w -> step w w' -> reachable (S n) w'.

(** [Object.keys] of a registry, as numbers. *)
Definition keys {V} (o : list (Z * V)) : list Z := fst <$> o.

(** The identifiers in use: those of the plain connections, then those of
    the upgraded ones. *)
Definition ids (s : State) : list Z :=
  keys (httpSockets s) ++ keys (wsSockets s).

End Runs.

(* ================================================================== *)
(** * The upgrade handler, statement by statement *)
(* ================================================================== *)

Module UpgradeSteps.
Import Backend.
Local Open Scope stmt_scope.

(** The statements of the handler that act on the state or on the socket,
    named by what they do. *)
Inductive statement : Type :=
| TakeId          (* line 84: const id = state.nextSocketId++ *)
| Insert          (* line 85: state.wsSockets[id] = socket *)
| WriteResponse   (* lines 88-102: the key, the token, socket.write *)
| PushFrame       (* lines 113-118: socket.write(constructReply(...)) *).

(** The body of the handler: its statements in the order of the source. *)
Definition body : list statement := [TakeId; Insert; WriteResponse; PushFrame].

(** One statement. [id] is the constant of line 84; the statement that
    defines it does not read it. *)
Definition exec (req : IncomingMessage) (socket : Socket)
  (s : statement) (id : Z) : M Z :=
  match s with
  | TakeId => next_id
  | Insert =>
      modify (with_state (fun st =>
        set_wsSockets (Obj.set id socket (wsSockets st)) st));;
      ret id
  | WriteResponse =>
      socket_write socket (UTF8.encode (handshake req));;
      ret id
  | PushFrame =>
      let! w := get_world in
      let! frame := lift (constructReply (songInfo_object w)) in
      socket_write socket frame;;
      ret id
  end.

(** Statements one after the other; an exception ends them. *)
Fixpoint run_statements (req : IncomingMessage) (socket : Socket)
  (stmts : list statement) (id : Z) : M Z :=
  match stmts with
  | [] => ret id
  | s :: rest =>
      let! id' := exec req socket s id in
      run_statements req socket rest id'
  end.

(** The worlds the handler goes through: the one after each statement, up
    to and with the statement that throws. *)
Fixpoint history (req : IncomingMessage) (socket : Socket)
  (stmts : list statement) (id : Z) (w : World) : list (statement * World) :=
  match stmts with
  | [] => []
  | s :: rest =>
      match exec req socket s id w with
      | (Ok id', w') => (s, w') :: history req socket rest id' w'
      | (Throw _, w') => [(s, w')]
      end
  end.

(** The order of the specification (3): at every point of the handler at
    which [wsSockets] holds the socket under the new identifier, the
    handshake response has already been written. *)
Definition created_after_handshake
  (req : IncomingMessage) (socket : Socket) (w : World) : Prop :=
  Forall (fun p : statement * World =>
            Obj.get (nextSocketId (state w)) (wsSockets (state (snd p)))
            = Some socket ->
            SocketWrite socket (UTF8.encode (handshake req))
            ∈ Spec.added w (snd p))
    (history req socket body 0 w).

End UpgradeSteps.

(* ================================================================== *)
(* ================================================================== *)
(** * Part II: what the code does *)
(* ================================================================== *)
(* ================================================================== *)

(* ================================================================== *)
(** * Well-formed UTF-16 and the UTF-8 round trip *)
(* ================================================================== *)

Module WellFormedFacts.
Import JSString UTF8 WellFormed.

Lemma wf_app s t : wf s -> wf t -> wf (s ++ t).
Proof. induction 1; simpl; auto. Qed.

Lemma wf_concat (l : list jsstring) : Forall wf l -> wf (concat l).
Proof. induction 1; simpl; auto using wf_app. Qed.

(** Characters below U+0100, the output of [lit] for one, are well formed. *)
Lemma wf_small s : Forall (fun c => 0 <= c < 0x100) s -> wf s.
Proof.
  induction 1 as [|c s Hc _ IH]; [constructor|].
  apply wf_unit; [lia| |exact IH].
  unfold is_surrogate. repeat case_test; simpl; try reflexivity; lia.
Qed.

Lemma lit_small (s : string) : Forall (fun c => 0 <= c < 0x100) (lit s).
Proof.
  unfold lit. apply Forall_fmap, Forall_forall. intros a _. simpl.
  pose proof (N_ascii_bounded a). lia.
Qed.

Lemma wf_lit (s : string) : wf (lit s).
Proof. apply wf_small, lit_small. Qed.

Lemma high_not_low c : is_high c = true -> is_low c = false.
Proof.
  unfold is_high, is_low. intros H.
  repeat case_test; simpl in *; try reflexivity; try discriminate; lia.
Qed.

Lemma not_surrogate_not_high c : is_surrogate c = false -> is_high c = false.
Proof.
  unfold is_high, is_surrogate. intros H; revert H.
  repeat case_test; simpl in *; try reflexivity; try discriminate; lia.
Qed.

Lemma code_points_unit c s :
  is_surrogate c = false -> code_points (c :: s) = c :: code_points s.
Proof.
  intros H. simpl. destruct s as [|d s']; [reflexivity|].
  rewrite (not_surrogate_not_high _ H). reflexivity.
Qed.

Lemma code_points_pair h l s :
  is_high h = true -> is_low l = true ->
  code_points (h :: l :: s)
  = (0x10000 + (h - 0xD800) * 0x400 + (l - 0xDC00)) :: code_points s.
Proof. intros Hh Hl. simpl. rewrite Hh, Hl. reflexivity. Qed.

Lemma encode_unit c s :
  is_surrogate c = false -> encode (c :: s) = of_cp c ++ encode s.
Proof.
  intros H. unfold encode. rewrite (code_points_unit _ _ H). simpl.
  unfold encode_cp at 1. rewrite H. reflexivity.
Qed.

Lemma encode_pair h l s :
  is_high h = true -> is_low l = true ->
  encode (h :: l :: s)
  = of_cp (0x10000 + (h - 0xD800) * 0x400 + (l - 0xDC00)) ++ encode s.
Proof.
  intros Hh Hl. unfold encode. rewrite (code_points_pair _ _ _ Hh Hl).
  simpl. unfold encode_cp at 1.
  replace (is_surrogate _) with false; [reflexivity|].
  unfold is_high, is_low in *. unfold is_surrogate.
  repeat case_test; simpl in *; try reflexivity; try discriminate; lia.
Qed.

End WellFormedFacts.

Module RoundTrip.
Import JSString UTF8 WellFormed WellFormedFacts.

(** Turn the boolean tests of the goal into their values. *)
Ltac tests :=
  unfold is_cont, is_surrogate, is_high, is_low, unit_ok in *;
  repeat (case_test; simpl; try lia); try reflexivity; try discriminate.

Lemma decode_1 b t :
  0 <= b < 0x80 -> decode (b :: t) = cons b <$> decode t.
Proof. intros H. simpl. tests. Qed.

Lemma decode_2 b0 b1 t :
  0xC2 <= b0 < 0xE0 -> 0x80 <= b1 < 0xC0 ->
  decode (b0 :: b1 :: t)
  = cons ((b0 - 0xC0) * 64 + (b1 - 0x80)) <$> decode t.
Proof. intros H0 H1. simpl. tests. Qed.

Lemma decode_3 b0 b1 b2 t :
  0xE0 <= b0 < 0xF0 -> 0x80 <= b1 < 0xC0 -> 0x80 <= b2 < 0xC0 ->
  0x800 <= (b0 - 0xE0) * 4096 + (b1 - 0x80) * 64 + (b2 - 0x80) ->
  ~ (0xD800 <= (b0 - 0xE0) * 4096 + (b1 - 0x80) * 64 + (b2 - 0x80) < 0xE000) ->
  decode (b0 :: b1 :: b2 :: t)
  = cons ((b0 - 0xE0) * 4096 + (b1 - 0x80) * 64 + (b2 - 0x80)) <$> decode t.
Proof. intros H0 H1 H2 H3 H4. simpl. tests. Qed.

Lemma decode_4 b0 b1 b2 b3 t :
  0xF0 <= b0 < 0xF8 -> 0x80 <= b1 < 0xC0 -> 0x80 <= b2 < 0xC0 ->
  0x80 <= b3 < 0xC0 ->
  0x10000 <= (b0 - 0xF0) * 262144 + (b1 - 0x80) * 4096
             + (b2 - 0x80) * 64 + (b3 - 0x80) < 0x110000 ->
  decode (b0 :: b1 :: b2 :: b3 :: t)
  = app (utf16_of_cp ((b0 - 0xF0) * 262144 + (b1 - 0x80) * 4096
                      + (b2 - 0x80) * 64 + (b3 - 0x80))) <$> decode t.
Proof. intros H0 H1 H2 H3 H4. simpl. tests. Qed.

Lemma decode_of_unit c r :
  0 <= c < 0x10000 -> is_surrogate c = false ->
  decode (of_cp c ++ r) = cons c <$> decode r.
Proof.
  intros Hc Hs. unfold of_cp.
  assert (Hns : ~ (0xD800 <= c < 0xE000)).
  { revert Hs. unfold is_surrogate. repeat case_test; simpl; try discriminate; lia. }
  destruct (Z.ltb_spec c 0x80); [apply decode_1; lia|].
  destruct (Z.ltb_spec c 0x800).
  { simpl app. rewrite decode_2 by zlia. f_equal. f_equal. zlia. }
  destruct (Z.ltb_spec c 0x10000); [|lia].
  simpl app. rewrite decode_3 by zlia. f_equal. f_equal. zlia.
Qed.

Lemma decode_of_pair h l r :
  is_high h = true -> is_low l = true ->
  decode (of_cp (0x10000 + (h - 0xD800) * 0x400 + (l - 0xDC00)) ++ r)
  = app [h; l] <$> decode r.
Proof.
  intros Hh Hl.
  assert (0xD800 <= h < 0xDC00 /\ 0xDC00 <= l < 0xE000) as [Hh' Hl'].
  { revert Hh Hl. unfold is_high, is_low.
    repeat case_test; simpl; try discriminate; lia. }
  set (cp := 0x10000 + (h - 0xD800) * 0x400 + (l - 0xDC00)).
  assert (Hcp : 0x10000 <= cp < 0x110000) by (unfold cp; lia).
  unfold of_cp.
  destruct (Z.ltb_spec cp 0x80); [lia|].
  destruct (Z.ltb_spec cp 0x800); [lia|].
  destruct (Z.ltb_spec cp 0x10000); [lia|].
  simpl app. rewrite decode_4 by zlia.
  replace ((0xF0 + cp / 262144 - 0xF0) * 262144
           + (0x80 + (cp / 4096) mod 64 - 0x80) * 4096
           + (0x80 + (cp / 64) mod 64 - 0x80) * 64
           + (0x80 + cp mod 64 - 0x80)) with cp by zlia.
  unfold utf16_of_cp.
  destruct (Z.ltb_spec cp 0x10000); [lia|].
  replace (0xD800 + (cp - 0x10000) / 0x400) with h by (unfold cp; zlia).
  replace (0xDC00 + (cp - 0x10000) mod 0x400) with l by (unfold cp; zlia).
  reflexivity.
Qed.

(** Decoding the UTF-8 bytes of a well-formed string gives the string. *)
Lemma decode_encode s : wf s -> decode (encode s) = Some s.
Proof.
  induction 1 as [|c s Hc Hs _ IH|h l s Hh Hl _ IH].
  - reflexivity.
  - rewrite (encode_unit _ _ Hs), (decode_of_unit _ _ Hc Hs), IH. reflexivity.
  - rewrite (encode_pair _ _ _ Hh Hl), (decode_of_pair _ _ _ Hh Hl), IH.
    reflexivity.
Qed.

End RoundTrip.

Module JSONExamples.
Import JSString JSON.

Example stringify_empty_object :
  stringify (JObject [(lit "songInfo", JUndefined)]) = Some (lit "{}").
Proof. reflexivity. Qed.

Example stringify_nested :
  stringify (JObject [(lit "a", JArray [JNumber (-12); JUndefined; JBool true]);
                      (lit "b", JString (lit "x" ++ [0x22; 0x0A; 0x1F])) ])
  = Some (lit "{" ++ [34] ++ lit "a" ++ [34] ++ lit ":[-12,null,true],"
          ++ [34] ++ lit "b" ++ [34] ++ lit ":" ++ [34]
          ++ lit "x\" ++ [34] ++ lit "\n\u001f" ++ [34] ++ lit "}").
Proof. reflexivity. Qed.

End JSONExamples.

(** ** The text [JSON.stringify] returns is well-formed UTF-16 *)

Module JSONFacts.
Import JSString UTF8 WellFormed WellFormedFacts JSON JSONInduction.


Definition cp_ok (cp : Z) : Prop := 0 <= cp < 0x110000.

Lemma code_points_ok_fuel (n : nat) :
  forall s, (length s <= n)%nat -> valid s = true -> Forall cp_ok (code_points s).
Proof.
  induction n as [|n IH]; intros s Hn Hv.
  - destruct s; [constructor|simpl in Hn; lia].
  - destruct s as [|c [|d t]]; [constructor|..].
    + simpl in *. constructor; [|constructor].
      unfold cp_ok, unit_ok in *. revert Hv.
      repeat case_test; simpl; try discriminate; lia.
    + simpl in Hn. change (valid (c :: d :: t)) with
        (unit_ok c && (unit_ok d && valid t)) in Hv.
      apply andb_prop in Hv as [Hc Hv]. pose proof Hv as Hdt.
      apply andb_prop in Hv as [Hd Ht].
      change (code_points (c :: d :: t)) with
        (if is_high c && is_low d
         then (0x10000 + (c - 0xD800) * 0x400 + (d - 0xDC00)) :: code_points t
         else c :: code_points (d :: t)).
      destruct (is_high c && is_low d) eqn:E.
      * apply andb_prop in E as [Eh El]. constructor.
        -- unfold cp_ok. revert Eh El. unfold is_high, is_low.
           repeat case_test; simpl; try discriminate; lia.
        -- apply IH; [lia|exact Ht].
      * constructor.
        -- unfold cp_ok, unit_ok in *. revert Hc.
           repeat case_test; simpl; try discriminate; lia.
        -- apply IH; [simpl; lia|exact Hdt].
Qed.

Lemma code_points_ok s : valid s = true -> Forall cp_ok (code_points s).
Proof. apply (code_points_ok_fuel (length s)). lia. Qed.

Lemma hex_digit_small d : 0 <= d < 16 -> 0 <= hex_digit d < 0x100.
Proof. intros H. unfold hex_digit. case_test; lia. Qed.

Lemma wf_unicode_escape c : wf (unicode_escape c).
Proof.
  apply wf_small. unfold unicode_escape.
  repeat (constructor; [try lia; apply hex_digit_small; zlia|]). constructor.
Qed.

Lemma wf_utf16_of_cp cp :
  cp_ok cp -> is_surrogate cp = false -> wf (utf16_of_cp cp).
Proof.
  unfold cp_ok, utf16_of_cp. intros Hcp Hs.
  destruct (Z.ltb_spec cp 0x10000).
  - apply wf_unit; [lia|exact Hs|constructor].
  - apply wf_pair; [| |constructor]; unfold is_high, is_low;
      repeat case_test; simpl; try reflexivity; zlia.
Qed.

Lemma wf_quote_cp cp : cp_ok cp -> wf (quote_cp cp).
Proof.
  intros Hcp. unfold quote_cp.
  repeat match goal with
         | |- context [Z.eqb ?a ?b] =>
             destruct (Z.eqb_spec a b);
             [first [apply wf_lit | apply wf_small; repeat constructor; lia]|]
         end.
  destruct ((cp <? 0x20) || is_surrogate cp) eqn:E.
  - apply wf_unicode_escape.
  - apply orb_false_elim in E as [_ E]. apply wf_utf16_of_cp; assumption.
Qed.

Lemma wf_quote s : valid s = true -> wf (quote s).
Proof.
  intros Hv. unfold quote.
  apply (wf_app [34]); [apply wf_small; repeat constructor; lia|].
  apply wf_app; [|apply wf_small; repeat constructor; lia].
  apply wf_concat, Forall_fmap.
  eapply Forall_impl; [apply code_points_ok, Hv|]. apply wf_quote_cp.
Qed.

Lemma wf_join sep l : wf sep -> Forall wf l -> wf (join sep l).
Proof.
  intros Hsep. induction 1 as [|x t Hx Ht IH]; [constructor|].
  simpl. destruct t; [exact Hx|]. auto using wf_app.
Qed.

Lemma serialize_array elems :
  serialize (JArray elems)
  = Some (lit "[" ++
          join (lit ",")
            (map (fun e => match serialize e with
                           | Some t => t
                           | None => lit "null"
                           end) elems)
          ++ lit "]").
Proof. reflexivity. Qed.

Lemma serialize_object props :
  serialize (JObject props)
  = Some (lit "{" ++
          join (lit ",")
            (concat
               (map (fun p => match serialize (snd p) with
                              | Some t => [quote (fst p) ++ lit ":" ++ t]
                              | None => []
                              end) props))
          ++ lit "}").
Proof. reflexivity. Qed.

Lemma wf_serialize v :
  valid_value v = true -> forall t, serialize v = Some t -> wf t.
Proof.
  induction v as [| |b|n|s|elems IH|props IH] using jsval_ind;
    intros Hv t Ht;
    [discriminate
    |change (Some (lit "null") = Some t) in Ht
    |change (Some (if b then lit "true" else lit "false") = Some t) in Ht
    |change (Some (number_to_string n) = Some t) in Ht
    |change (Some (quote s) = Some t) in Ht
    |rewrite serialize_array in Ht
    |rewrite serialize_object in Ht];
    apply (inj Some) in Ht; subst t.
  - apply wf_lit.
  - destruct b; apply wf_lit.
  - apply wf_lit.
  - apply wf_quote, Hv.
  - apply wf_app; [apply wf_lit|]. apply wf_app; [|apply wf_lit].
    apply wf_join; [apply wf_lit|].
    simpl in Hv. induction IH as [|e l He _ IHl]; [constructor|].
    simpl in Hv. apply andb_prop in Hv as [Hev Hlv].
    simpl. constructor; [|exact (IHl Hlv)].
    destruct (serialize e) eqn:E; [exact (He Hev _ eq_refl)|apply wf_lit].
  - apply wf_app; [apply wf_lit|]. apply wf_app; [|apply wf_lit].
    apply wf_join; [apply wf_lit|].
    apply Forall_concat, List.Forall_map.
    cbn [valid_value] in Hv.
    induction IH as [|[k e] l He _ IHl]; [constructor|].
    cbn [forallb fst snd] in Hv. apply andb_prop in Hv as [Hp Hlv].
    apply andb_prop in Hp as [Hk Hev].
    constructor; [|exact (IHl Hlv)].
    cbn [fst snd] in *. destruct (serialize e) eqn:E; [|constructor].
    constructor; [|constructor].
    apply wf_app; [apply wf_quote, Hk|].
    apply wf_app; [apply wf_lit|exact (He Hev _ eq_refl)].
Qed.

End JSONFacts.

Module CryptoExamples.
Import JSString.

(** FIPS 180 test vector. *)
Example sha1_abc :
  SHA1.digest (UTF8.encode (lit "abc"))
  = [0xa9; 0x99; 0x3e; 0x36; 0x47; 0x06; 0x81; 0x6a; 0xba; 0x3e;
     0x25; 0x71; 0x78; 0x50; 0xc2; 0x6c; 0x9c; 0xd0; 0xd8; 0x9d].
Proof. vm_compute. reflexivity. Qed.

(** A message of two blocks. *)
Example sha1_two_blocks :
  SHA1.digest (UTF8.encode
    (lit "abcdbcdecdefdefgefghfghighijhijkijkljklmklmnlmnomnopnopq"))
  = [0x84; 0x98; 0x3e; 0x44; 0x1c; 0x3b; 0xd2; 0x6e; 0xba; 0xae;
     0x4a; 0xa1; 0xf9; 0x51; 0x29; 0xe5; 0xe5; 0x46; 0x70; 0xf1].
Proof. vm_compute. reflexivity. Qed.

Example base64_examples :
  Base64.encode (UTF8.encode (lit "foobar")) = lit "Zm9vYmFy"
  /\ Base64.encode (UTF8.encode (lit "fooba")) = lit "Zm9vYmE="
  /\ Base64.encode (UTF8.encode (lit "foob")) = lit "Zm9vYg==".
Proof. repeat split; vm_compute; reflexivity. Qed.

End CryptoExamples.

Module FrameExamples.
Import JSString.

Example frame_of_empty_object :
  constructReply (JObject [(lit "songInfo", JUndefined)])
  = Ok [129; 2; 123; 125].
Proof. reflexivity. Qed.

Example frame_of_undefined : constructReply JUndefined = Throw TypeError.
Proof. reflexivity. Qed.

Example frame_extended_length :
  (fun r => match r with
            | Ok buf => Some (take 4 buf, length buf)
            | Throw _ => None
            end)
    (constructReply (JString (replicate 300 97)))
  = Some ([129; 126; 1; 46], 306%nat).
Proof. vm_compute. reflexivity. Qed.

Example frame_too_long :
  constructReply (JString (replicate (Z.to_nat 65534) 97)) = Throw RangeError.
Proof. vm_compute. reflexivity. Qed.

End FrameExamples.

(* ================================================================== *)
(** * Facts about buffers and frames *)
(* ================================================================== *)

Module FrameFacts.
Import JSString.

Lemma fitting_all (chars : list (list Z)) (room : nat) :
  (length (concat chars) <= room)%nat -> Buffer.fitting chars room = concat chars.
Proof.
  revert room. induction chars as [|ch t IH]; intros room H; [reflexivity|].
  simpl in *. rewrite length_app in H.
  destruct (Nat.leb_spec (length ch) room); [|lia].
  rewrite IH by lia. reflexivity.
Qed.

Lemma writeUInt8_ok (value offset : Z) (buf : list Z) :
  0 <= offset < Z.of_nat (length buf) -> 0 <= value <= 0xFF ->
  Buffer.writeUInt8 value offset buf = Ok (<[Z.to_nat offset := value]> buf).
Proof.
  intros Ho Hv. unfold Buffer.writeUInt8.
  repeat (case_test; simpl; try lia); reflexivity.
Qed.

Lemma writeUInt16BE_ok (value offset : Z) (buf : list Z) :
  0 <= offset -> offset + 2 <= Z.of_nat (length buf) -> 0 <= value <= 0xFFFF ->
  Buffer.writeUInt16BE value offset buf
  = Ok (<[S (Z.to_nat offset) := value mod 256]>
          (<[Z.to_nat offset := value / 256]> buf)).
Proof.
  intros Ho Hl Hv. unfold Buffer.writeUInt16BE.
  repeat (case_test; simpl; try lia); reflexivity.
Qed.

Lemma writeUInt16BE_range (value offset : Z) (buf : list Z) :
  0xFFFF < value -> Buffer.writeUInt16BE value offset buf = Throw RangeError.
Proof.
  intros Hv. unfold Buffer.writeUInt16BE.
  destruct (Z.leb_spec value 0xFFFF); [lia|].
  rewrite andb_false_r. reflexivity.
Qed.

(** A string that fits is written whole. *)
Lemma write_fits (s : jsstring) (offset : Z) (buf : list Z) :
  0 <= offset -> offset + UTF8.byteLength s <= Z.of_nat (length buf) ->
  Buffer.write s offset buf
  = Ok (take (Z.to_nat offset) buf ++ UTF8.encode s
        ++ drop (Z.to_nat offset + length (UTF8.encode s)) buf).
Proof.
  unfold UTF8.byteLength. intros Ho Hl. unfold Buffer.write.
  repeat (case_test; simpl; try lia).
  rewrite fitting_all; [reflexivity|]. fold (UTF8.encode s). lia.
Qed.

Section Frames.
Variables (data : jsval) (json : jsstring).
Hypothesis Hjson : JSON.stringify data = Some json.

Local Abbreviation L := (UTF8.byteLength json).

(** The short form: the first byte, the length, the payload. *)
Lemma constructReply_short :
  L < 126 -> constructReply data = Ok (129 :: L :: UTF8.encode json).
Proof.
  intros HL. unfold constructReply. rewrite Hjson.
  destruct (Z.ltb_spec L 126) as [_|]; [|lia]. cbn [Z.eqb Z.ltb Z.compare].
  assert (HL0 : L = Z.of_nat (length (UTF8.encode json))) by reflexivity.
  unfold Buffer.alloc.
  replace (Z.to_nat (2 + 0 + L)) with (S (S (length (UTF8.encode json))))
    by lia.
  cbn [replicate].
  rewrite writeUInt8_ok by (cbn [length]; lia). cbn [mbind result_bind].
  change (Z.to_nat 0) with O. cbn [insert list_insert].
  rewrite writeUInt8_ok by (cbn [length]; lia). cbn [mbind result_bind].
  change (Z.to_nat 1) with 1%nat. cbn [insert list_insert].
  rewrite write_fits
    by (cbn [length]; rewrite ?length_replicate; lia).
  cbn [mbind result_bind]. change (Z.to_nat 2) with 2%nat.
  cbn [take]. rewrite drop_ge by (cbn [length]; rewrite length_replicate; lia).
  rewrite app_nil_r. reflexivity.
Qed.

(** The extended form: 126, the length in two bytes, the payload. *)
Lemma constructReply_extended :
  126 <= L <= 65535 ->
  constructReply data
  = Ok (129 :: 126 :: L / 256 :: L mod 256 :: UTF8.encode json).
Proof.
  intros HL. unfold constructReply. rewrite Hjson.
  destruct (Z.ltb_spec L 126) as [|_]; [lia|]. cbn [Z.eqb Z.ltb Z.compare].
  assert (HL0 : L = Z.of_nat (length (UTF8.encode json))) by reflexivity.
  unfold Buffer.alloc.
  replace (Z.to_nat (2 + 2 + L))
    with (S (S (S (S (length (UTF8.encode json)))))) by lia.
  cbn [replicate].
  rewrite writeUInt8_ok by (cbn [length]; lia). cbn [mbind result_bind].
  change (Z.to_nat 0) with O. cbn [insert list_insert].
  rewrite writeUInt8_ok by (cbn [length]; lia). cbn [mbind result_bind].
  change (Z.to_nat 1) with 1%nat. cbn [insert list_insert].
  rewrite writeUInt16BE_ok by (cbn [length]; lia).
  cbn [mbind result_bind]. change (Z.to_nat 2) with 2%nat.
  cbn [insert list_insert].
  rewrite write_fits
    by (cbn [length]; rewrite ?length_replicate; lia).
  cbn [mbind result_bind]. change (Z.to_nat (2 + 2)) with 4%nat.
  cbn [take]. rewrite drop_ge by (cbn [length]; rewrite length_replicate; lia).
  rewrite app_nil_r. reflexivity.
Qed.

(** Beyond 65535 bytes the length does not fit and nothing is built. *)
Lemma constructReply_too_long :
  65535 < L -> constructReply data = Throw RangeError.
Proof.
  intros HL. unfold constructReply. rewrite Hjson.
  destruct (Z.ltb_spec L 126) as [|_]; [lia|]. cbn [Z.eqb Z.ltb Z.compare].
  assert (HL0 : L = Z.of_nat (length (UTF8.encode json))) by reflexivity.
  unfold Buffer.alloc.
  replace (Z.to_nat (2 + 2 + L))
    with (S (S (S (S (length (UTF8.encode json)))))) by lia.
  cbn [replicate].
  rewrite writeUInt8_ok by (cbn [length]; lia). cbn [mbind result_bind].
  change (Z.to_nat 0) with O. cbn [insert list_insert].
  rewrite writeUInt8_ok by (cbn [length]; lia). cbn [mbind result_bind].
  rewrite writeUInt16BE_range by lia. reflexivity.
Qed.
End Frames.

End FrameFacts.

(* ================================================================== *)
(** * Facts about the handlers *)
(* ================================================================== *)

Module BackendFacts.
Import JSString Backend.
Local Open Scope stmt_scope.

Lemma get_set_eq {V} (k : Z) (v : V) (o : list (Z * V)) :
  Obj.get k (Obj.set k v o) = Some v.
Proof.
  induction o as [|[k' v'] t IH]; simpl.
  - rewrite Z.eqb_refl. reflexivity.
  - destruct (Z.ltb_spec k k'); simpl.
    + rewrite Z.eqb_refl. reflexivity.
    + destruct (Z.eqb_spec k k') as [->|Hne]; simpl.
      * rewrite Z.eqb_refl. reflexivity.
      * destruct (Z.eqb_spec k k'); [contradiction|exact IH].
Qed.

Lemma get_values {V} (k : Z) (v : V) (o : list (Z * V)) :
  Obj.get k o = Some v -> v ∈ Obj.values o.
Proof.
  unfold Obj.values. induction o as [|[k' v'] t IH]; simpl; [discriminate|].
  destruct (Z.eqb_spec k k').
  - intros [= ->]. apply list_elem_of_here.
  - intros H. apply list_elem_of_further, IH, H.
Qed.

Lemma concat_replicate_singleton (n : nat) (c : Z) :
  concat (replicate n [c]) = replicate n c.
Proof. induction n as [|n IH]; simpl; [|rewrite IH]; reflexivity. Qed.

(** The filler, [count] times. *)
Lemma repeat_filler (count : Z) :
  0 <= count ->
  js_repeat hangulFillerUnicodeCharacter count
  = Ok (replicate (Z.to_nat count) 0x3164).
Proof.
  intros H. unfold js_repeat, hangulFillerUnicodeCharacter.
  destruct (Z.ltb_spec count 0); [lia|].
  rewrite concat_replicate_singleton. reflexivity.
Qed.

Lemma repeat_negative (s : jsstring) (count : Z) :
  count < 0 -> js_repeat s count = Throw RangeError.
Proof. intros H. unfold js_repeat. destruct (Z.ltb_spec count 0); [reflexivity|lia]. Qed.

(** ** The broadcast loop *)

Local Abbreviation send :=
  (fun socket : Socket =>
     let! w := get_world in
     let! frame := lift (constructReply (songInfo_object w)) in
     socket_write socket frame).

Lemma broadcast_ok (l : list Socket) (w : World) (frame : list Z) :
  constructReply (songInfo_object w) = Ok frame ->
  forEach l send w
  = (Ok tt, {| state := state w; heap := heap w;
               trace := trace w ++ ((fun s => SocketWrite s frame) <$> l) |}).
Proof.
  revert w. induction l as [|s l IH]; intros w H.
  - simpl. rewrite app_nil_r. destruct w; reflexivity.
  - cbn [forEach]. unfold bind at 1. unfold bind at 1. unfold get_world at 1.
    unfold bind at 1. unfold lift at 1. rewrite H.
    unfold socket_write, modify. rewrite IH by exact H.
    simpl. rewrite <- app_assoc. reflexivity.
Qed.

Lemma broadcast_throw (s : Socket) (l : list Socket) (w : World) (e : jserror) :
  constructReply (songInfo_object w) = Throw e ->
  forEach (s :: l) send w = (Throw e, w).
Proof.
  intros H. cbn [forEach]. unfold bind at 1. unfold bind at 1.
  unfold get_world at 1. unfold bind at 1. unfold lift at 1. rewrite H.
  reflexivity.
Qed.

(** The loop only writes, and only the frame of the current info. *)
Lemma broadcast_spec (l : list Socket) (w : World) :
  exists r sent,
    forEach l send w
    = (r, {| state := state w; heap := heap w; trace := trace w ++ sent |})
    /\ Forall (fun e => exists s frame,
                 e = SocketWrite s frame
                 /\ constructReply (songInfo_object w) = Ok frame) sent
    /\ (r = Ok tt -> (fun e => match e with
                               | SocketWrite s _ => s
                               | _ => O
                               end) <$> sent = l).
Proof.
  destruct (constructReply (songInfo_object w)) as [frame|e] eqn:E.
  - exists (Ok tt), ((fun s => SocketWrite s frame) <$> l).
    split; [apply broadcast_ok, E|]. split.
    + apply Forall_fmap, Forall_forall. intros s _. simpl. eauto.
    + intros _. induction l as [|x l IH]; [reflexivity|].
      rewrite !fmap_cons. f_equal. exact IH.
  - destruct l as [|s l].
    + exists (Ok tt), []. simpl. rewrite app_nil_r.
      split; [destruct w; reflexivity|]. split; [constructor|reflexivity].
    + exists (Throw e), []. rewrite (broadcast_throw _ _ _ _ E), app_nil_r.
      split; [destruct w; reflexivity|]. split; [constructor|discriminate].
Qed.

(** ** [updateActivity], case by case *)

Lemma both_empty_test (i : SongInfo) :
  (js_length (title i) =? 0) && (js_length (artist i) =? 0) = true
  <-> title i = [] /\ artist i = [].
Proof.
  unfold js_length. rewrite andb_true_iff, !Z.eqb_eq. split.
  - intros [Ht Ha]. split; apply length_zero_iff_nil; lia.
  - intros [-> ->]. split; reflexivity.
Qed.

Lemma set_title_same (i : SongInfo) : set_title (title i) i = i.
Proof. destruct i; reflexivity. Qed.

Lemma set_artist_same (i : SongInfo) : set_artist (artist i) i = i.
Proof. destruct i; reflexivity. Qed.

(** A reference to nothing: reading [title] fails. *)
Lemma updateActivity_dangling (songInfo : ref) (w : World) :
  heap w !! songInfo = None -> updateActivity songInfo w = (Throw TypeError, w).
Proof.
  intros Hi. unfold updateActivity, bind at 1, deref at 1. rewrite Hi.
  reflexivity.
Qed.

(** Nothing happens for an info without title and artist. *)
Lemma updateActivity_empty (songInfo : ref) (w : World) (i : SongInfo) :
  heap w !! songInfo = Some i -> title i = [] -> artist i = [] ->
  updateActivity songInfo w = (Ok tt, w).
Proof.
  intros Hi Ht Ha. unfold updateActivity, bind at 1, deref at 1. rewrite Hi.
  rewrite (proj2 (both_empty_test i) (conj Ht Ha)). reflexivity.
Qed.

(** Before the server listens the info is stored and that is all. *)
Lemma updateActivity_not_ready (songInfo : ref) (w : World) (i : SongInfo) :
  heap w !! songInfo = Some i -> ~ (title i = [] /\ artist i = []) ->
  ready (state w) = false ->
  updateActivity songInfo w
  = (Ok tt, {| state := set_lastSongInfo (Some songInfo) (state w);
               heap := heap w; trace := trace w |}).
Proof.
  intros Hi Hne Hr. unfold updateActivity, bind at 1, deref at 1. rewrite Hi.
  destruct ((js_length (title i) =? 0) && (js_length (artist i) =? 0)) eqn:E.
  { apply both_empty_test in E. contradiction. }
  unfold bind at 1, modify at 1. unfold bind at 1, get_world at 1.
  cbn [state with_state ready set_lastSongInfo]. rewrite Hr. reflexivity.
Qed.

(** [title.length > 2] with [artist.length < 2]: the count given to
    [repeat] is negative. *)
Lemma updateActivity_throws (songInfo : ref) (w : World) (i : SongInfo) :
  heap w !! songInfo = Some i -> ready (state w) = true ->
  js_length (artist i) < 2 -> 2 < js_length (title i) ->
  updateActivity songInfo w
  = (Throw RangeError,
     {| state := set_lastSongInfo (Some songInfo) (state w);
        heap := heap w; trace := trace w |}).
Proof.
  intros Hi Hr Ha Ht. unfold updateActivity, bind at 1, deref at 1.
  rewrite Hi.
  destruct (Z.eqb_spec (js_length (title i)) 0) as [E|_]; [lia|].
  cbn [andb]. unfold bind at 1, modify at 1. unfold bind at 1, get_world at 1.
  cbn [state with_state ready set_lastSongInfo]. rewrite Hr. cbn [negb].
  unfold bind at 1. unfold bind at 1, deref at 1.
  cbn [heap with_state]. rewrite Hi.
  destruct (Z.ltb_spec (js_length (title i)) 2) as [|_]; [lia|].
  unfold ret at 1. unfold bind at 1. unfold bind at 1, deref at 1.
  cbn [heap with_state]. rewrite Hi.
  destruct (Z.ltb_spec (js_length (artist i)) 2) as [_|]; [|lia].
  unfold bind at 1, lift at 1. rewrite repeat_negative by lia. reflexivity.
Qed.

(** In every other case the loop runs, on a heap in which the object
    behind the reference has its title filled up and is otherwise as it
    was. *)
Lemma updateActivity_broadcasts (songInfo : ref) (w : World) (i : SongInfo) :
  heap w !! songInfo = Some i -> ~ (title i = [] /\ artist i = []) ->
  ready (state w) = true ->
  ~ (js_length (artist i) < 2 /\ 2 < js_length (title i)) ->
  exists h : gmap ref SongInfo,
    h !! songInfo
    = Some (set_title
              (title i ++ replicate (Z.to_nat (2 - js_length (title i))) 0x3164) i)
    /\ (forall r, r <> songInfo -> h !! r = heap w !! r)
    /\ updateActivity songInfo w
       = forEach (Obj.values (wsSockets (state w))) send
           {| state := set_lastSongInfo (Some songInfo) (state w);
              heap := h; trace := trace w |}.
Proof.
  intros Hi Hne Hr Hno. unfold updateActivity, bind at 1, deref at 1.
  rewrite Hi.
  destruct ((js_length (title i) =? 0) && (js_length (artist i) =? 0)) eqn:E.
  { apply both_empty_test in E. contradiction. }
  unfold bind at 1, modify at 1. unfold bind at 1, get_world at 1.
  cbn [state with_state ready set_lastSongInfo]. rewrite Hr. cbn [negb].
  unfold bind at 1. unfold bind at 1, deref at 1.
  cbn [heap with_state]. rewrite Hi.
  set (t' := title i ++ replicate (Z.to_nat (2 - js_length (title i))) 0x3164).
  assert (Hnil : forall a : jsstring,
             a ++ replicate (Z.to_nat 0) 0x3164 = a)
    by (intros a; apply app_nil_r).
  destruct (Z.ltb_spec (js_length (title i)) 2) as [Hshort|Hlong].
  - (* the title is filled up to two units *)
    unfold bind at 1, lift at 1. rewrite repeat_filler by lia.
    unfold update_object at 1, modify at 1. fold t'.
    assert (Ht' : js_length t' = 2).
    { unfold t', js_length in *. rewrite length_app, length_replicate. lia. }
    unfold bind at 1. unfold bind at 1, deref at 1.
    cbn [heap with_heap with_state]. rewrite lookup_alter_eq, Hi. cbn [fmap option_fmap option_map].
    cbn [artist title set_title].
    destruct (Z.ltb_spec (js_length (artist i)) 2) as [Ha|Ha].
    + unfold bind at 1, lift at 1. rewrite Ht'.
      rewrite repeat_filler by lia. rewrite Hnil.
      unfold update_object, modify. unfold bind at 1, get_world at 1.
      cbn [state with_heap with_state wsSockets set_lastSongInfo heap trace].
      eexists. split; [|split; [|reflexivity]].
      * cbn [heap with_heap with_state]. rewrite !lookup_alter_eq, Hi. cbn [fmap option_fmap option_map].
        reflexivity.
      * intros r Hr'. cbn [heap with_heap with_state]. rewrite !lookup_alter_ne by congruence. reflexivity.
    + unfold ret at 1. unfold bind at 1, get_world at 1.
      cbn [state with_heap with_state wsSockets set_lastSongInfo heap trace].
      eexists. split; [|split; [|reflexivity]].
      * cbn [heap with_heap with_state]. rewrite lookup_alter_eq, Hi. reflexivity.
      * intros r Hr'. cbn [heap with_heap with_state]. rewrite lookup_alter_ne by congruence. reflexivity.
  - (* the title is long enough and stays *)
    assert (Et : t' = title i).
    { unfold t'. replace (Z.to_nat (2 - js_length (title i))) with O by lia.
      apply app_nil_r. }
    rewrite Et, set_title_same.
    unfold ret at 1. unfold bind at 1. unfold bind at 1, deref at 1.
    cbn [heap with_state]. rewrite Hi.
    destruct (Z.ltb_spec (js_length (artist i)) 2) as [Ha|Ha].
    + assert (js_length (title i) = 2) as -> by lia.
      unfold bind at 1, lift at 1. rewrite repeat_filler by lia. rewrite Hnil.
      unfold update_object, modify. unfold bind at 1, get_world at 1.
      cbn [state with_heap with_state wsSockets set_lastSongInfo heap trace].
      eexists. split; [|split; [|reflexivity]].
      * cbn [heap with_heap with_state]. rewrite lookup_alter_eq, Hi. cbn [fmap option_fmap option_map].
        f_equal. apply set_artist_same.
      * intros r Hr'. cbn [heap with_heap with_state]. rewrite lookup_alter_ne by congruence. reflexivity.
    + unfold ret at 1. unfold bind at 1, get_world at 1.
      cbn [state with_heap with_state wsSockets set_lastSongInfo heap trace].
      eexists. split; [exact Hi|]. split; reflexivity.
Qed.

(** ** The upgrade handler *)

Lemma upgrade_register_spec (socket : Socket) (w : World) :
  upgrade_register socket w
  = (Ok (nextSocketId (state w)),
     {| state :=
          set_wsSockets
            (Obj.set (nextSocketId (state w)) socket (wsSockets (state w)))
            (set_nextSocketId (post_increment (nextSocketId (state w)))
               (state w));
        heap := heap w; trace := trace w |}).
Proof. reflexivity. Qed.

Lemma on_upgrade_steps (req : IncomingMessage) (socket : Socket) (w : World) :
  on_upgrade req socket w
  = match upgrade_register socket w with
    | (Ok id, w1) =>
        match upgrade_respond req socket w1 with
        | (Ok _, w2) => (Ok id, w2)
        | (Throw e, w2) => (Throw e, w2)
        end
    | (Throw e, w1) => (Throw e, w1)
    end.
Proof. reflexivity. Qed.

(** The response is written first, then the frame if there is one. *)
Lemma upgrade_respond_spec (req : IncomingMessage) (socket : Socket) (w : World) :
  upgrade_respond req socket w
  = match constructReply (songInfo_object w) with
    | Ok frame =>
        (Ok tt,
         {| state := state w; heap := heap w;
            trace := (trace w
                      ++ [SocketWrite socket (UTF8.encode (handshake req))])
                     ++ [SocketWrite socket frame] |})
    | Throw e =>
        (Throw e,
         {| state := state w; heap := heap w;
            trace := trace w
                     ++ [SocketWrite socket (UTF8.encode (handshake req))] |})
    end.
Proof.
  unfold upgrade_respond, bind at 1, socket_write at 1, modify at 1.
  unfold bind at 1, get_world at 1. unfold bind at 1, lift at 1.
  change (songInfo_object (emit _ w)) with (songInfo_object w).
  destruct (constructReply (songInfo_object w)); reflexivity.
Qed.

(** ** [stop] *)

Lemma destroy_all (l : list Socket) (w : World) :
  forEach l (fun socket => modify (emit (SocketDestroy socket))) w
  = (Ok tt, {| state := state w; heap := heap w;
               trace := trace w ++ (SocketDestroy <$> l) |}).
Proof.
  revert w. induction l as [|s l IH]; intros w.
  - simpl. rewrite app_nil_r. destruct w; reflexivity.
  - cbn [forEach]. unfold bind at 1, modify at 1. rewrite IH.
    cbn [state heap trace emit]. rewrite <- app_assoc. reflexivity.
Qed.

Lemma stop_spec (w : World) :
  stop w
  = (Ok tt,
     {| state := state w; heap := heap w;
        trace := trace w
                 ++ match httpServer (state w) with
                    | Some _ =>
                        ServerClose
                        :: (SocketDestroy <$> Obj.values (wsSockets (state w)))
                        ++ (SocketDestroy <$> Obj.values (httpSockets (state w)))
                    | None => []
                    end |}).
Proof.
  unfold stop, bind at 1, get_world at 1.
  destruct (httpServer (state w)).
  - unfold bind at 1, modify at 1. unfold bind at 1. rewrite destroy_all.
    rewrite destroy_all. cbn [state heap trace emit].
    rewrite <- !app_assoc. reflexivity.
  - unfold ret. rewrite app_nil_r. destruct w; reflexivity.
Qed.

End BackendFacts.

(* ================================================================== *)
(** * The claims *)
(* ================================================================== *)

Import JSString Backend BackendFacts Scenarios.

Lemma added_app (w w' : World) (l : list event) :
  trace w' = trace w ++ l -> Spec.added w w' = l.
Proof. intros H. unfold Spec.added. rewrite H. apply drop_app_length. Qed.

(** ** The frame encoder *)

(** C4: for a value with a JSON text of [L] bytes in UTF-8, [constructReply]
    returns, when [L < 126], a buffer whose byte 0 is 0x81, whose byte 1 is
    [L] and whose bytes from 2 on decode as UTF-8 to the JSON text; when
    [126 <= L <= 65535], byte 0 is 0x81, byte 1 is 126, bytes 2 and 3 are
    [L] as a big-endian 16-bit integer and the bytes from 4 on decode to
    the JSON text. *)
Theorem constructReply_layout (data : jsval) (json : jsstring) :
  JSON.stringify data = Some json ->
  JSON.valid_value data = true ->
  (UTF8.byteLength json < 126 ->
   exists buf : list Z,
     constructReply data = Ok buf
     /\ buf !! 0%nat = Some 0x81
     /\ buf !! 1%nat = Some (UTF8.byteLength json)
     /\ UTF8.decode (drop 2 buf) = Some json)
  /\ (126 <= UTF8.byteLength json <= 65535 ->
      exists buf : list Z,
        constructReply data = Ok buf
        /\ buf !! 0%nat = Some 0x81
        /\ buf !! 1%nat = Some 126
        /\ (exists hi lo : Z,
              buf !! 2%nat = Some hi /\ buf !! 3%nat = Some lo
              /\ 0 <= hi < 256 /\ 0 <= lo < 256
              /\ hi * 256 + lo = UTF8.byteLength json)
        /\ UTF8.decode (drop 4 buf) = Some json).
Proof.
  intros Hjson Hvalid.
  assert (Hrt : UTF8.decode (UTF8.encode json) = Some json)
    by (apply RoundTrip.decode_encode, (JSONFacts.wf_serialize data Hvalid), Hjson).
  split; intros HL.
  - eexists. split; [apply (FrameFacts.constructReply_short data json Hjson HL)|].
    repeat split; assumption.
  - eexists. split; [apply (FrameFacts.constructReply_extended data json Hjson HL)|].
    split; [reflexivity|]. split; [reflexivity|]. split; [|exact Hrt].
    exists (UTF8.byteLength json / 256), (UTF8.byteLength json mod 256).
    split; [reflexivity|]. split; [reflexivity|]. zlia.
Qed.

(** An instance of each form: a short frame and one of 302 bytes. *)
Lemma constructReply_layout_witness :
  (exists buf : list Z,
     constructReply (JObject [(lit "songInfo", SongInfo_value (info_of "A" "B"))])
     = Ok buf
     /\ buf !! 0%nat = Some 0x81
     /\ buf !! 1%nat = Some 58
     /\ UTF8.decode (drop 2 buf)
        = JSON.stringify
            (JObject [(lit "songInfo", SongInfo_value (info_of "A" "B"))]))
  /\ (exists buf : list Z,
        constructReply (JString (replicate 300 97)) = Ok buf
        /\ buf !! 0%nat = Some 0x81
        /\ buf !! 1%nat = Some 126
        /\ (exists hi lo : Z,
              buf !! 2%nat = Some hi /\ buf !! 3%nat = Some lo
              /\ 0 <= hi < 256 /\ 0 <= lo < 256 /\ hi * 256 + lo = 302)
        /\ UTF8.decode (drop 4 buf) = Some (JSON.quote (replicate 300 97))).
Proof.
  split.
  - apply (proj1 (constructReply_layout
                    (JObject [(lit "songInfo", SongInfo_value (info_of "A" "B"))])
                    _ eq_refl eq_refl)).
    vm_compute. reflexivity.
  - apply (proj2 (constructReply_layout (JString (replicate 300 97))
                    _ eq_refl eq_refl)).
    vm_compute. split; discriminate.
Defined.

(** ** [updateActivity] *)

(** The object behind the reference keeps its artist, whatever its length:
    the count given to [repeat] for the artist is [2 - title.length], taken
    after the title has been filled up, and so never positive. *)
Lemma artist_never_padded (songInfo : ref) (w : World) (i i' : SongInfo) :
  heap w !! songInfo = Some i ->
  heap (snd (updateActivity songInfo w)) !! songInfo = Some i' ->
  artist i' = artist i.
Proof.
  intros Hi.
  destruct (decide (title i = [] /\ artist i = [])) as [[Ht Ha]|Hne].
  { rewrite (updateActivity_empty _ _ _ Hi Ht Ha). simpl. congruence. }
  destruct (ready (state w)) eqn:Hr.
  2:{ rewrite (updateActivity_not_ready _ _ _ Hi Hne Hr). simpl. congruence. }
  destruct (decide (js_length (artist i) < 2 /\ 2 < js_length (title i)))
    as [[Ha Ht]|Hno].
  { rewrite (updateActivity_throws _ _ _ Hi Hr Ha Ht). simpl. congruence. }
  destruct (updateActivity_broadcasts _ _ _ Hi Hne Hr Hno) as (h & Hh & _ & ->).
  match goal with
  | |- context [forEach ?l _ ?w0] =>
      destruct (broadcast_spec l w0) as (r & sent & -> & _)
  end.
  simpl. rewrite Hh. intros [= <-]. reflexivity.
Qed.

(** C1: with the server ready, [updateActivity] on title "A" and artist
    "B" fills the title up to "A" and one filler glyph but leaves the artist
    at "B", one unit long, and that is what is broadcast; on title "AB" and
    artist "C" the artist stays "C". The claim has both artists filled up
    to length 2. *)
Theorem updateActivity_leaves_short_artist :
  updateActivity 1%positive (listening (info_of "A" "B"))
  = (Ok tt,
     {| state := set_lastSongInfo (Some 1%positive)
                   (state (listening (info_of "A" "B")));
        heap := {[ 1%positive :=
                   {| title := lit "A" ++ [0x3164]; artist := lit "B";
                      elapsedSeconds := 0; others := [] |} ]};
        trace :=
          [SocketWrite 8%nat
             (129 :: 61
              :: UTF8.encode
                   (lit "{" ++ quoted "songInfo" ++ lit ":{"
                    ++ quoted "title" ++ lit ":" ++ [34; 65; 0x3164; 34]
                    ++ lit "," ++ quoted "artist" ++ lit ":" ++ quoted "B"
                    ++ lit "," ++ quoted "elapsedSeconds" ++ lit ":0}}"))] |})
  /\ updateActivity 1%positive (listening (info_of "AB" "C"))
     = (Ok tt,
        {| state := set_lastSongInfo (Some 1%positive)
                      (state (listening (info_of "AB" "C")));
           heap := {[ 1%positive :=
                      {| title := lit "AB"; artist := lit "C";
                         elapsedSeconds := 0; others := [] |} ]};
           trace :=
             [SocketWrite 8%nat
                (129 :: 59
                 :: UTF8.encode
                      (lit "{" ++ quoted "songInfo" ++ lit ":{"
                       ++ quoted "title" ++ lit ":" ++ quoted "AB"
                       ++ lit "," ++ quoted "artist" ++ lit ":" ++ quoted "C"
                       ++ lit "," ++ quoted "elapsedSeconds" ++ lit ":0}}"))] |})
  /\ js_length (lit "B") = 1 /\ js_length (lit "C") = 1
  /\ Spec.pad_to_2 (lit "B") = lit "B" ++ [0x3164]
  /\ Spec.pad_to_2 (lit "C") = lit "C" ++ [0x3164].
Proof. repeat split; vm_compute; reflexivity. Qed.

(** C8: an info whose title and artist are both empty changes nothing: no
    frame is written and the stored info is as before. *)
Theorem updateActivity_ignores_empty_info
  (songInfo : ref) (w : World) (i : SongInfo) :
  heap w !! songInfo = Some i ->
  title i = [] -> artist i = [] ->
  updateActivity songInfo w = (Ok tt, w)
  /\ Spec.added w (snd (updateActivity songInfo w)) = []
  /\ lastSongInfo (state (snd (updateActivity songInfo w)))
     = lastSongInfo (state w).
Proof.
  intros Hi Ht Ha. rewrite (updateActivity_empty _ _ _ Hi Ht Ha).
  split; [reflexivity|]. split; [|reflexivity].
  apply added_app. simpl. rewrite app_nil_r. reflexivity.
Qed.

(** An instance: the server listens and the info is blank. *)
Lemma updateActivity_ignores_empty_info_witness :
  updateActivity 1%positive (listening blank_info)
  = (Ok tt, listening (blank_info))
  /\ Spec.added (listening blank_info)
       (snd (updateActivity 1%positive (listening blank_info))) = []
  /\ lastSongInfo
       (state (snd (updateActivity 1%positive (listening blank_info))))
     = lastSongInfo (state (listening blank_info)).
Proof.
  apply (updateActivity_ignores_empty_info 1%positive
           (listening blank_info) blank_info);
    reflexivity.
Defined.

(** C7: an info whose title and artist are not both empty becomes the
    stored info, whether the server is ready or not; when it is not ready
    the call ends there: nothing is written and no object is changed. *)
Theorem updateActivity_stores_info
  (songInfo : ref) (w : World) (i : SongInfo) :
  heap w !! songInfo = Some i ->
  ~ (title i = [] /\ artist i = []) ->
  lastSongInfo (state (snd (updateActivity songInfo w))) = Some songInfo
  /\ (ready (state w) = false ->
      fst (updateActivity songInfo w) = Ok tt
      /\ Spec.added w (snd (updateActivity songInfo w)) = []
      /\ heap (snd (updateActivity songInfo w)) = heap w
      /\ state (snd (updateActivity songInfo w))
         = set_lastSongInfo (Some songInfo) (state w)).
Proof.
  intros Hi Hne. split.
  - destruct (ready (state w)) eqn:Hr.
    2:{ rewrite (updateActivity_not_ready _ _ _ Hi Hne Hr). reflexivity. }
    destruct (decide (js_length (artist i) < 2 /\ 2 < js_length (title i)))
      as [[Ha Ht]|Hno].
    { rewrite (updateActivity_throws _ _ _ Hi Hr Ha Ht). reflexivity. }
    destruct (updateActivity_broadcasts _ _ _ Hi Hne Hr Hno) as (h & _ & _ & ->).
    match goal with
    | |- context [forEach ?l _ ?w0] =>
        destruct (broadcast_spec l w0) as (r & sent & -> & _)
    end.
    reflexivity.
  - intros Hr. rewrite (updateActivity_not_ready _ _ _ Hi Hne Hr).
    split; [reflexivity|]. split; [|split; reflexivity].
    apply added_app. simpl. rewrite app_nil_r. reflexivity.
Qed.

(** An instance: the port is not bound yet. *)
Lemma updateActivity_stores_info_witness :
  lastSongInfo
    (state (snd (updateActivity 1%positive (starting (info_of "A" "B")))))
  = Some 1%positive
  /\ fst (updateActivity 1%positive (starting (info_of "A" "B"))) = Ok tt
  /\ Spec.added (starting (info_of "A" "B"))
       (snd (updateActivity 1%positive (starting (info_of "A" "B")))) = []
  /\ heap (snd (updateActivity 1%positive (starting (info_of "A" "B"))))
     = heap (starting (info_of "A" "B")).
Proof.
  assert (Hne : ~ (title (info_of "A" "B") = [] /\ artist (info_of "A" "B") = []))
    by (intros [H _]; discriminate H).
  destruct (updateActivity_stores_info 1%positive (starting (info_of "A" "B"))
              (info_of "A" "B") eq_refl Hne) as [H1 H2].
  destruct (H2 eq_refl) as (H3 & H4 & H5 & _).
  repeat split; assumption.
Defined.

(** C10, counterexample: with title "A" and artist "B" the artist is
    shorter than 2, yet the artist of the caller's object is not overwritten
    with a padded string: it is "B" after the call, without a filler glyph,
    and that is what a later read through [state.lastSongInfo] sees. *)
Lemma artist_is_not_overwritten_with_padding :
  js_length (artist (info_of "A" "B")) < 2
  /\ exists i' : SongInfo,
       heap (snd (updateActivity 1%positive (listening (info_of "A" "B"))))
       !! 1%positive = Some i'
       /\ artist i' = lit "B"
       /\ artist i' <> Spec.pad_to_2 (artist (info_of "A" "B"))
       /\ (0x3164 ∉ artist i')
       /\ lastSongInfo_value
            (snd (updateActivity 1%positive (listening (info_of "A" "B"))))
          = SongInfo_value i'.
Proof.
  split; [vm_compute; reflexivity|].
  exists {| title := lit "A" ++ [0x3164]; artist := lit "B";
            elapsedSeconds := 0; others := [] |}.
  split; [vm_compute; reflexivity|]. split; [reflexivity|].
  split; [vm_compute; discriminate|]. split; [|vm_compute; reflexivity].
  cbn [artist]. intros H. apply list_elem_of_singleton in H. discriminate H.
Qed.

(** C10, amended: [updateActivity] works on the caller's object. With the
    server ready, the object behind the reference passed in has its title
    filled up with filler glyphs in place when the title is shorter than 2;
    the stored info is that same reference, not a copy, so what
    [state.lastSongInfo] reads, now and after any later change made through
    the caller's reference, is the caller's object, the filler glyphs of
    the title included. *)
Theorem updateActivity_mutates_argument
  (songInfo : ref) (w : World) (i : SongInfo) :
  heap w !! songInfo = Some i ->
  ~ (title i = [] /\ artist i = []) ->
  ready (state w) = true ->
  lastSongInfo (state (snd (updateActivity songInfo w))) = Some songInfo
  /\ exists i' : SongInfo,
       heap (snd (updateActivity songInfo w)) !! songInfo = Some i'
       /\ title i'
          = title i ++ replicate (Z.to_nat (2 - js_length (title i))) 0x3164
       /\ elapsedSeconds i' = elapsedSeconds i
       /\ others i' = others i
       /\ lastSongInfo_value (snd (updateActivity songInfo w))
          = SongInfo_value i'
       /\ forall f : SongInfo -> SongInfo,
            lastSongInfo_value
              (with_heap (alter f songInfo) (snd (updateActivity songInfo w)))
            = SongInfo_value (f i').
Proof.
  intros Hi Hne Hr.
  assert (Hgen : forall (w' : World) (i' : SongInfo),
             lastSongInfo (state w') = Some songInfo ->
             heap w' !! songInfo = Some i' ->
             lastSongInfo_value w' = SongInfo_value i'
             /\ forall f : SongInfo -> SongInfo,
                  lastSongInfo_value (with_heap (alter f songInfo) w')
                  = SongInfo_value (f i')).
  { intros w' i' Hl Hh. unfold lastSongInfo_value. split.
    - rewrite Hl, Hh. reflexivity.
    - intros f. cbn [state heap with_heap]. rewrite Hl, lookup_alter_eq, Hh.
      reflexivity. }
  destruct (decide (js_length (artist i) < 2 /\ 2 < js_length (title i)))
    as [[Ha Ht]|Hno].
  - rewrite (updateActivity_throws _ _ _ Hi Hr Ha Ht). cbn [snd state heap].
    split; [reflexivity|]. exists i. split; [exact Hi|].
    split.
    { replace (Z.to_nat (2 - js_length (title i))) with O by lia.
      symmetry. apply app_nil_r. }
    repeat (split; [reflexivity|]).
    apply Hgen; [reflexivity|exact Hi].
  - destruct (updateActivity_broadcasts _ _ _ Hi Hne Hr Hno) as (h & Hh & _ & ->).
    match goal with
    | |- context [forEach ?l _ ?w0] =>
        destruct (broadcast_spec l w0) as (r & sent & -> & _)
    end.
    cbn [snd state heap]. split; [reflexivity|].
    eexists. split; [exact Hh|].
    repeat (split; [reflexivity|]).
    apply Hgen; [reflexivity|exact Hh].
Qed.

(** An instance: the title "A" of the caller's object gets one filler. *)
Lemma updateActivity_mutates_argument_witness :
  lastSongInfo
    (state (snd (updateActivity 1%positive (listening (info_of "A" "B")))))
  = Some 1%positive
  /\ exists i' : SongInfo,
       heap (snd (updateActivity 1%positive (listening (info_of "A" "B"))))
       !! 1%positive = Some i'
       /\ title i' = [65; 0x3164].
Proof.
  assert (Hne : ~ (title (info_of "A" "B") = [] /\ artist (info_of "A" "B") = []))
    by (intros [H _]; discriminate H).
  destruct (updateActivity_mutates_argument 1%positive
              (listening (info_of "A" "B")) (info_of "A" "B")
              eq_refl Hne eq_refl) as (H1 & i' & H2 & H3 & _).
  split; [exact H1|]. exists i'. split; [exact H2|exact H3].
Defined.

(** ** The upgrade handler *)

Lemma trim_start_id (s : jsstring) :
  Forall (fun c => is_space c = false) s -> trim_start s = s.
Proof. intros H. destruct H as [|c s Hc _]; simpl; [|rewrite Hc]; reflexivity. Qed.

(** A key without white space, as every base64 text is, is its own trim. *)
Lemma trim_id (s : jsstring) :
  Forall (fun c => is_space c = false) s -> trim s = s.
Proof.
  intros H. unfold trim. rewrite (trim_start_id s H).
  rewrite trim_start_id by (apply Forall_rev, H). apply rev_involutive.
Qed.

Lemma responseKey_of_clean_key (k : jsstring) :
  Forall (fun c => is_space c = false) k ->
  responseKey {| sec_websocket_key := Some k |} = Spec.computeAcceptToken k.
Proof.
  intros H. unfold responseKey, key, Spec.computeAcceptToken, magic.
  cbn [sec_websocket_key]. rewrite (trim_id k H). reflexivity.
Qed.

(** The handshake of RFC 6455, section 1.3. *)
Example responseKey_sample :
  responseKey sample_request = lit "s3pPLMBiTxaQ9kYGzzhZRbK+xOo=".
Proof. vm_compute. reflexivity. Qed.

(** What the handler has done when it returns or throws. *)
Lemma on_upgrade_spec (req : IncomingMessage) (socket : Socket) (w : World) :
  on_upgrade req socket w
  = (match constructReply (songInfo_object w) with
     | Ok _ => Ok (nextSocketId (state w))
     | Throw e => Throw e
     end,
     {| state :=
          set_wsSockets
            (Obj.set (nextSocketId (state w)) socket (wsSockets (state w)))
            (set_nextSocketId (post_increment (nextSocketId (state w)))
               (state w));
        heap := heap w;
        trace := trace w
                 ++ SocketWrite socket (UTF8.encode (handshake req))
                 :: match constructReply (songInfo_object w) with
                    | Ok frame => [SocketWrite socket frame]
                    | Throw _ => []
                    end |}).
Proof.
  rewrite on_upgrade_steps, upgrade_register_spec, upgrade_respond_spec.
  cbn [state heap trace].
  match goal with
  | |- context [constructReply (songInfo_object ?w1)] =>
      change (songInfo_object w1) with (songInfo_object w)
  end.
  destruct (constructReply (songInfo_object w));
    rewrite <- ?app_assoc; reflexivity.
Qed.

(** Counterexample to C2: an upgrade request without the key header, and
    one whose key is the empty string, are not rejected: the response and
    a frame are written to the new socket, the socket is not destroyed and
    it is in the upgraded registry afterwards. *)
Lemma upgrade_without_key_not_rejected :
  (~ Spec.rejected 9%nat (listening (info_of "A" "B"))
       (snd (on_upgrade {| sec_websocket_key := None |} 9%nat
               (listening (info_of "A" "B"))))
   /\ on_upgrade {| sec_websocket_key := None |} 9%nat
        (listening (info_of "A" "B"))
      = (Ok 2,
         {| state := {| ready := true; httpServer := Some tt;
                        httpSockets := [(0, 7%nat)];
                        wsSockets := [(1, 8%nat); (2, 9%nat)];
                        nextSocketId := 3; lastSongInfo := None |};
            heap := {[ 1%positive := info_of "A" "B" ]};
            trace :=
              [SocketWrite 9%nat
                 (UTF8.encode
                    (lit "HTTP/1.1 101 Web Socket Protocol Handshake" ++ [13; 10]
                     ++ lit "Upgrade: WebSocket" ++ [13; 10]
                     ++ lit "Connection: Upgrade" ++ [13; 10]
                     ++ lit "Sec-WebSocket-Accept: "
                     ++ Spec.computeAcceptToken (lit "undefined") ++ [13; 10]
                     ++ [13; 10]));
               SocketWrite 9%nat [129; 2; 123; 125]] |}))
  /\ (~ Spec.rejected 9%nat (listening (info_of "A" "B"))
          (snd (on_upgrade {| sec_websocket_key := Some [] |} 9%nat
                  (listening (info_of "A" "B"))))
      /\ on_upgrade {| sec_websocket_key := Some [] |} 9%nat
           (listening (info_of "A" "B"))
         = (Ok 2,
            {| state := {| ready := true; httpServer := Some tt;
                           httpSockets := [(0, 7%nat)];
                           wsSockets := [(1, 8%nat); (2, 9%nat)];
                           nextSocketId := 3; lastSongInfo := None |};
               heap := {[ 1%positive := info_of "A" "B" ]};
               trace :=
                 [SocketWrite 9%nat
                    (UTF8.encode
                       (lit "HTTP/1.1 101 Web Socket Protocol Handshake" ++ [13; 10]
                        ++ lit "Upgrade: WebSocket" ++ [13; 10]
                        ++ lit "Connection: Upgrade" ++ [13; 10]
                        ++ lit "Sec-WebSocket-Accept: "
                        ++ Spec.computeAcceptToken [] ++ [13; 10]
                        ++ [13; 10]));
                  SocketWrite 9%nat [129; 2; 123; 125]] |})).
Proof.
  split; (split; [|vm_compute; reflexivity]);
    intros [Hnone _]; apply (Hnone [129; 2; 123; 125]);
    vm_compute; apply list_elem_of_further, list_elem_of_here.
Qed.

(** C2, amended: no upgrade request is turned down for its key header.
    Whatever the header, the handler puts the socket into [wsSockets] under
    the next identifier, writes the 101 response with an accept token to
    it, and does not destroy it; the token is that of the text [undefined]
    when the header is absent and that of the empty key when it is empty. *)
Theorem on_upgrade_never_rejects
  (req : IncomingMessage) (socket : Socket) (w : World) :
  Obj.get (nextSocketId (state w))
    (wsSockets (state (snd (on_upgrade req socket w)))) = Some socket
  /\ socket ∈ Obj.values (wsSockets (state (snd (on_upgrade req socket w))))
  /\ (exists rest : list event,
        Spec.added w (snd (on_upgrade req socket w))
        = SocketWrite socket
            (UTF8.encode
               (lit "HTTP/1.1 101 Web Socket Protocol Handshake" ++ [13; 10]
                ++ lit "Upgrade: WebSocket" ++ [13; 10]
                ++ lit "Connection: Upgrade" ++ [13; 10]
                ++ lit "Sec-WebSocket-Accept: " ++ responseKey req ++ [13; 10]
                ++ [13; 10]))
          :: rest
        /\ forall s : Socket, SocketDestroy s ∉ rest)
  /\ responseKey {| sec_websocket_key := None |}
     = Spec.computeAcceptToken (lit "undefined")
  /\ responseKey {| sec_websocket_key := Some [] |}
     = Spec.computeAcceptToken [].
Proof.
  rewrite on_upgrade_spec. cbn [snd state wsSockets set_wsSockets].
  assert (Hget := get_set_eq (nextSocketId (state w)) socket (wsSockets (state w))).
  split; [exact Hget|]. split; [exact (get_values _ _ _ Hget)|].
  split; [|split; unfold responseKey, key, Spec.computeAcceptToken, magic;
                  reflexivity].
  exists (match constructReply (songInfo_object w) with
          | Ok frame => [SocketWrite socket frame]
          | Throw _ => []
          end).
  split; [apply added_app; reflexivity|].
  intros s Hs. destruct (constructReply (songInfo_object w)).
  - apply list_elem_of_singleton in Hs. discriminate Hs.
  - apply not_elem_of_nil in Hs. exact Hs.
Qed.

(** Counterexample to C3: for a key that starts with a no-break space the
    token sent is not the one of the key as the client supplied it. *)
Lemma responseKey_differs_for_padded_key :
  responseKey {| sec_websocket_key := Some [0xA0; 120] |}
  <> Spec.computeAcceptToken [0xA0; 120].
Proof. vm_compute. discriminate. Qed.

(** C3, amended: for every key the client supplies, the accept token is the
    base64 text of the SHA-1 digest of the UTF-8 bytes of the key without
    its leading and trailing white space, followed by the magic constant;
    the handler writes this token in its response whatever the state, so
    the same key always gives the same token. *)
Theorem responseKey_is_token_of_trimmed_key
  (k : jsstring) (socket : Socket) (w1 w2 : World) :
  responseKey {| sec_websocket_key := Some k |}
  = Spec.computeAcceptToken (trim k)
  /\ (exists rest1 rest2 : list event,
        Spec.added w1
          (snd (on_upgrade {| sec_websocket_key := Some k |} socket w1))
        = SocketWrite socket
            (UTF8.encode
               (lit "HTTP/1.1 101 Web Socket Protocol Handshake" ++ [13; 10]
                ++ lit "Upgrade: WebSocket" ++ [13; 10]
                ++ lit "Connection: Upgrade" ++ [13; 10]
                ++ lit "Sec-WebSocket-Accept: "
                ++ Spec.computeAcceptToken (trim k) ++ [13; 10]
                ++ [13; 10]))
          :: rest1
        /\ Spec.added w2
             (snd (on_upgrade {| sec_websocket_key := Some k |} socket w2))
           = SocketWrite socket
               (UTF8.encode
                  (lit "HTTP/1.1 101 Web Socket Protocol Handshake" ++ [13; 10]
                   ++ lit "Upgrade: WebSocket" ++ [13; 10]
                   ++ lit "Connection: Upgrade" ++ [13; 10]
                   ++ lit "Sec-WebSocket-Accept: "
                   ++ Spec.computeAcceptToken (trim k) ++ [13; 10]
                   ++ [13; 10]))
             :: rest2).
Proof.
  assert (Hk : responseKey {| sec_websocket_key := Some k |}
               = Spec.computeAcceptToken (trim k)).
  { unfold responseKey, key, Spec.computeAcceptToken, magic. reflexivity. }
  split; [exact Hk|]. rewrite <- Hk.
  rewrite !on_upgrade_spec. cbn [snd].
  exists (match constructReply (songInfo_object w1) with
          | Ok frame => [SocketWrite socket frame]
          | Throw _ => []
          end),
         (match constructReply (songInfo_object w2) with
          | Ok frame => [SocketWrite socket frame]
          | Throw _ => []
          end).
  split; apply added_app; reflexivity.
Qed.

(** The statements, run one after the other, are the handler. *)
Lemma run_body_is_on_upgrade (req : IncomingMessage) (socket : Socket) (w : World) :
  UpgradeSteps.run_statements req socket UpgradeSteps.body 0 w
  = on_upgrade req socket w.
Proof.
  rewrite on_upgrade_spec.
  unfold UpgradeSteps.body. cbn [UpgradeSteps.run_statements UpgradeSteps.exec].
  unfold bind at 1. unfold next_id at 1.
  unfold bind at 1. unfold bind at 1, modify at 1. unfold ret at 1.
  unfold bind at 1. unfold bind at 1, socket_write at 1, modify at 1.
  unfold ret at 1.
  unfold bind at 1. unfold bind at 1, get_world at 1.
  unfold bind at 1, lift at 1.
  match goal with
  | |- context [constructReply (songInfo_object ?w1)] =>
      change (songInfo_object w1) with (songInfo_object w)
  end.
  destruct (constructReply (songInfo_object w)); [|reflexivity].
  unfold bind, socket_write, modify, ret, emit, with_state.
  cbn [state heap trace wsSockets set_nextSocketId]. rewrite <- app_assoc.
  reflexivity.
Qed.

(** The worlds of the handler, one by one. *)
Lemma upgrade_history (req : IncomingMessage) (socket : Socket) (w : World) :
  UpgradeSteps.history req socket UpgradeSteps.body 0 w
  = [(UpgradeSteps.TakeId,
      {| state := set_nextSocketId (post_increment (nextSocketId (state w)))
                    (state w);
         heap := heap w; trace := trace w |});
     (UpgradeSteps.Insert,
      {| state :=
           set_wsSockets
             (Obj.set (nextSocketId (state w)) socket (wsSockets (state w)))
             (set_nextSocketId (post_increment (nextSocketId (state w)))
                (state w));
         heap := heap w; trace := trace w |});
     (UpgradeSteps.WriteResponse,
      {| state :=
           set_wsSockets
             (Obj.set (nextSocketId (state w)) socket (wsSockets (state w)))
             (set_nextSocketId (post_increment (nextSocketId (state w)))
                (state w));
         heap := heap w;
         trace := trace w ++ [SocketWrite socket (UTF8.encode (handshake req))] |});
     (UpgradeSteps.PushFrame, snd (on_upgrade req socket w))].
Proof.
  rewrite on_upgrade_spec.
  unfold UpgradeSteps.body. cbn [UpgradeSteps.history UpgradeSteps.exec].
  unfold next_id at 1. cbn [with_state state heap trace].
  unfold bind at 1, modify at 1, ret at 1. cbn [with_state state heap trace].
  unfold bind at 1, socket_write at 1, modify at 1, ret at 1.
  cbn [emit state heap trace].
  unfold bind at 1, get_world at 1. unfold bind at 1, lift at 1.
  match goal with
  | |- context [constructReply (songInfo_object ?w1)] =>
      change (songInfo_object w1) with (songInfo_object w)
  end.
  destruct (constructReply (songInfo_object w)).
  - unfold bind, socket_write, modify, ret, emit. cbn [state heap trace snd].
    rewrite <- app_assoc. reflexivity.
  - cbn [snd]. reflexivity.
Qed.

(** C9, counterexample: the order of the claim does not hold of the
    handler. After its second statement (line 85) [wsSockets] holds the
    socket under the new identifier, and nothing has been written to the
    socket; the response is written by the statement after it. *)
Lemma entry_created_before_handshake :
  ~ UpgradeSteps.created_after_handshake sample_request 8%nat initial_world
  /\ UpgradeSteps.history sample_request 8%nat UpgradeSteps.body 0 initial_world
     = [(UpgradeSteps.TakeId,
         {| state := {| ready := false; httpServer := None; httpSockets := [];
                        wsSockets := []; nextSocketId := 1;
                        lastSongInfo := None |};
            heap := ∅; trace := [] |});
        (UpgradeSteps.Insert,
         {| state := {| ready := false; httpServer := None; httpSockets := [];
                        wsSockets := [(0, 8%nat)]; nextSocketId := 1;
                        lastSongInfo := None |};
            heap := ∅; trace := [] |});
        (UpgradeSteps.WriteResponse,
         {| state := {| ready := false; httpServer := None; httpSockets := [];
                        wsSockets := [(0, 8%nat)]; nextSocketId := 1;
                        lastSongInfo := None |};
            heap := ∅;
            trace := [SocketWrite 8%nat
                        (UTF8.encode (handshake sample_request))] |});
        (UpgradeSteps.PushFrame,
         {| state := {| ready := false; httpServer := None; httpSockets := [];
                        wsSockets := [(0, 8%nat)]; nextSocketId := 1;
                        lastSongInfo := None |};
            heap := ∅;
            trace := [SocketWrite 8%nat
                        (UTF8.encode (handshake sample_request));
                      SocketWrite 8%nat [129; 2; 123; 125]] |})]
  /\ UpgradeSteps.run_statements sample_request 8%nat UpgradeSteps.body 0
       initial_world
     = on_upgrade sample_request 8%nat initial_world.
Proof.
  split; [|split; [vm_compute; reflexivity|apply run_body_is_on_upgrade]].
  unfold UpgradeSteps.created_after_handshake. rewrite upgrade_history.
  intros H. apply Forall_cons in H as [_ H]. apply Forall_cons in H as [H _].
  cbn [snd state wsSockets set_wsSockets] in H.
  specialize (H (get_set_eq _ _ _)).
  rewrite (added_app initial_world _ []) in H by reflexivity.
  apply not_elem_of_nil in H. exact H.
Qed.

(** C9, amended: the handler inserts the connection into the upgraded
    registry first, before it computes the accept token and writes the
    response. Its statements are, in this order: take the identifier, which
    leaves the registry and the socket alone; insert the socket under it,
    with nothing written yet; write the response, the first thing written;
    push the frame. Nothing before the frame can fail, so when the handler
    returns or throws, the response has been written to every connection
    it inserted. *)
Theorem on_upgrade_registers_first
  (req : IncomingMessage) (socket : Socket) (w : World) :
  UpgradeSteps.run_statements req socket UpgradeSteps.body 0 w
  = on_upgrade req socket w
  /\ exists w1 w2 w3 : World,
       UpgradeSteps.history req socket UpgradeSteps.body 0 w
       = [(UpgradeSteps.TakeId, w1); (UpgradeSteps.Insert, w2);
          (UpgradeSteps.WriteResponse, w3);
          (UpgradeSteps.PushFrame, snd (on_upgrade req socket w))]
       /\ (wsSockets (state w1) = wsSockets (state w) /\ trace w1 = trace w)
       /\ (Obj.get (nextSocketId (state w)) (wsSockets (state w2)) = Some socket
           /\ trace w2 = trace w)
       /\ (wsSockets (state w3) = wsSockets (state w2)
           /\ trace w3
              = trace w ++ [SocketWrite socket (UTF8.encode (handshake req))])
       /\ (wsSockets (state (snd (on_upgrade req socket w)))
           = wsSockets (state w2)
           /\ exists rest : list event,
                trace (snd (on_upgrade req socket w)) = trace w3 ++ rest).
Proof.
  split; [apply run_body_is_on_upgrade|].
  eexists _, _, _. split; [apply upgrade_history|].
  cbn [state wsSockets set_wsSockets set_nextSocketId trace].
  split; [split; reflexivity|]. split; [split; [apply get_set_eq|reflexivity]|].
  split; [split; reflexivity|].
  rewrite on_upgrade_spec. cbn [snd state wsSockets set_wsSockets trace].
  split; [reflexivity|].
  destruct (constructReply (songInfo_object w)); eexists;
    rewrite <- app_assoc; reflexivity.
Qed.

(** ** [stop] *)

(** C5, counterexample: after [stop] with a plain and an upgraded
    connection open, both registries still hold their entry and [ready] is
    still true. *)
Lemma stop_leaves_state :
  fst (stop (listening (info_of "A" "B"))) = Ok tt
  /\ ~ Spec.stopped (state (snd (stop (listening (info_of "A" "B")))))
  /\ httpSockets (state (snd (stop (listening (info_of "A" "B")))))
     = [(0, 7%nat)]
  /\ wsSockets (state (snd (stop (listening (info_of "A" "B")))))
     = [(1, 8%nat)]
  /\ ready (state (snd (stop (listening (info_of "A" "B"))))) = true.
Proof.
  split; [reflexivity|]. split; [|repeat split; reflexivity].
  intros (H & _). discriminate H.
Qed.

(** C5, amended: [stop] raises no error, whether a server exists or not
    and also when called again; when a server exists it closes it and
    destroys every socket of [wsSockets] and then every socket of
    [httpSockets]; it changes no field of the state: [ready] and both
    registries are as before. *)
Theorem stop_closes_and_keeps_state (w : World) :
  fst (stop w) = Ok tt
  /\ state (snd (stop w)) = state w
  /\ heap (snd (stop w)) = heap w
  /\ Spec.added w (snd (stop w))
     = match httpServer (state w) with
       | Some _ =>
           ServerClose
           :: (SocketDestroy <$> Obj.values (wsSockets (state w)))
           ++ (SocketDestroy <$> Obj.values (httpSockets (state w)))
       | None => []
       end
  /\ fst (stop (snd (stop w))) = Ok tt
  /\ state (snd (stop (snd (stop w)))) = state w.
Proof.
  rewrite !stop_spec. cbn [fst snd state heap].
  repeat (split; [reflexivity|]).
  split; [apply added_app; reflexivity|]. split; reflexivity.
Qed.

(** ** The content of the frames *)

Lemma songInfo_object_json (w : World) :
  JSON.stringify (songInfo_object w)
  = Some match JSON.stringify (lastSongInfo_value w) with
         | Some t => lit "{" ++ (JSON.quote (lit "songInfo") ++ lit ":" ++ t)
                     ++ lit "}"
         | None => lit "{" ++ lit "}"
         end.
Proof.
  unfold songInfo_object, JSON.stringify.
  rewrite JSONFacts.serialize_object. cbn [map concat fst snd].
  destruct (JSON.serialize (lastSongInfo_value w)); reflexivity.
Qed.

(** C6, counterexample: the frame pushed after the handshake when nothing
    is stored carries the text of an empty object, and the frame broadcast
    on an update has its info under [songInfo]; neither is the frame of
    the object with [playbackInfo]. *)
Lemma frames_do_not_carry_playbackInfo :
  (exists frame : list Z,
     SocketWrite 8%nat frame
     ∈ Spec.added initial_world
         (snd (on_upgrade sample_request 8%nat initial_world))
     /\ UTF8.decode (drop 2 frame) = Some (lit "{}")
     /\ constructReply (Spec.playbackInfo_object initial_world)
        = Ok (129 :: 21
              :: UTF8.encode (lit "{" ++ quoted "playbackInfo" ++ lit ":null}"))
     /\ constructReply (Spec.playbackInfo_object initial_world) <> Ok frame)
  /\ (exists frame : list Z,
        Spec.added (listening (info_of "AB" "CD"))
          (snd (updateActivity 1%positive (listening (info_of "AB" "CD"))))
        = [SocketWrite 8%nat frame]
        /\ UTF8.decode (drop 2 frame)
           = Some (lit "{" ++ quoted "songInfo" ++ lit ":"
                   ++ SongInfo_json (info_of "AB" "CD") ++ lit "}")
        /\ constructReply
             (Spec.playbackInfo_object
                (snd (updateActivity 1%positive (listening (info_of "AB" "CD")))))
           <> Ok frame).
Proof.
  split.
  - exists [129; 2; 123; 125]. split.
    { vm_compute. apply list_elem_of_further, list_elem_of_here. }
    repeat split; vm_compute; try reflexivity; discriminate.
  - eexists. split; [vm_compute; reflexivity|].
    split; vm_compute; try reflexivity; discriminate.
Qed.

(** C6, amended: every frame pushed to an upgraded connection, the one
    after the handshake and each one broadcast on an update, is the frame
    of the object [{ songInfo: state.lastSongInfo }]; its JSON text has the
    stored info under the name [songInfo], and is the empty object when no
    info is stored yet. *)
Theorem pushed_frames_carry_songInfo
  (req : IncomingMessage) (socket : Socket) (songInfo : ref) (w : World) :
  JSON.stringify (songInfo_object w)
  = Some match lastSongInfo (state w) ≫= (fun r => heap w !! r) with
         | Some i => lit "{" ++ (quoted "songInfo" ++ lit ":" ++ SongInfo_json i)
                     ++ lit "}"
         | None => lit "{" ++ lit "}"
         end
  /\ Spec.added w (snd (on_upgrade req socket w))
     = SocketWrite socket (UTF8.encode (handshake req))
       :: match constructReply (songInfo_object w) with
          | Ok frame => [SocketWrite socket frame]
          | Throw _ => []
          end
  /\ Forall (fun e => exists (s : Socket) (frame : list Z),
               e = SocketWrite s frame
               /\ constructReply
                    (songInfo_object (snd (updateActivity songInfo w)))
                  = Ok frame)
       (Spec.added w (snd (updateActivity songInfo w))).
Proof.
  split; [|split].
  - rewrite songInfo_object_json. unfold lastSongInfo_value.
    destruct (lastSongInfo (state w)) as [r|]; [|reflexivity].
    cbn [mbind option_bind]. destruct (heap w !! r) as [i|]; reflexivity.
  - rewrite on_upgrade_spec. apply added_app. reflexivity.
  - destruct (heap w !! songInfo) as [i|] eqn:Hi.
    2:{ rewrite (updateActivity_dangling _ _ Hi). cbn [snd].
        rewrite (added_app w w []) by (symmetry; apply app_nil_r).
        constructor. }
    destruct (decide (title i = [] /\ artist i = [])) as [[Ht Ha]|Hne].
    { rewrite (updateActivity_empty _ _ _ Hi Ht Ha). cbn [snd].
      rewrite (added_app w w []) by (symmetry; apply app_nil_r).
      constructor. }
    destruct (ready (state w)) eqn:Hr.
    2:{ rewrite (updateActivity_not_ready _ _ _ Hi Hne Hr). cbn [snd].
        rewrite (added_app _ _ []) by (symmetry; apply app_nil_r).
        constructor. }
    destruct (decide (js_length (artist i) < 2 /\ 2 < js_length (title i)))
      as [[Ha Ht]|Hno].
    { rewrite (updateActivity_throws _ _ _ Hi Hr Ha Ht). cbn [snd].
      rewrite (added_app _ _ []) by (symmetry; apply app_nil_r).
      constructor. }
    destruct (updateActivity_broadcasts _ _ _ Hi Hne Hr Hno) as (h & _ & _ & ->).
    match goal with
    | |- context [forEach ?l _ ?w0] =>
        destruct (broadcast_spec l w0) as (r & sent & -> & Hsent & _)
    end.
    cbn [snd]. rewrite (added_app _ _ sent) by reflexivity.
    exact Hsent.
Qed.

(* ================================================================== *)
(** * Further properties of the frame encoder *)
(* ================================================================== *)

Module FrameBytes.
Import WellFormed WellFormedFacts.

Local Abbreviation is_byte := (fun b : Z => 0 <= b < 256).

Lemma of_cp_bytes (cp : Z) : 0 <= cp < 0x110000 -> Forall is_byte (UTF8.of_cp cp).
Proof.
  intros H. unfold UTF8.of_cp.
  repeat case_test.
  all: repeat (constructor; [cbv beta; try zlia|]); try constructor.
Qed.

(** The UTF-8 bytes of a well-formed string are bytes. *)
Lemma encode_bytes (s : jsstring) : wf s -> Forall is_byte (UTF8.encode s).
Proof.
  induction 1 as [|c s Hc Hs _ IH|h l s Hh Hl _ IH].
  - constructor.
  - rewrite (encode_unit _ _ Hs). apply Forall_app. split; [|exact IH].
    apply of_cp_bytes. lia.
  - rewrite (encode_pair _ _ _ Hh Hl). apply Forall_app. split; [|exact IH].
    apply of_cp_bytes. revert Hh Hl. unfold is_high, is_low.
    repeat case_test; simpl; try discriminate; lia.
Qed.

End FrameBytes.

(** X1: a value whose JSON text is longer than 65535 bytes in UTF-8 gets no
    frame: [constructReply] throws a RangeError (the length does not fit
    [writeUInt16BE]) instead of returning a truncated frame. *)
Theorem constructReply_rejects_long_payload (data : jsval) (json : jsstring) :
  JSON.stringify data = Some json ->
  65535 < UTF8.byteLength json ->
  constructReply data = Throw RangeError.
Proof. intros Hjson HL. exact (FrameFacts.constructReply_too_long data json Hjson HL). Qed.

(** An instance: a string of 65534 letters, 65536 bytes with its quotes. *)
Lemma constructReply_rejects_long_payload_witness :
  constructReply (JString (replicate (Z.to_nat 65534) 97)) = Throw RangeError.
Proof.
  apply (constructReply_rejects_long_payload
           (JString (replicate (Z.to_nat 65534) 97))
           (JSON.quote (replicate (Z.to_nat 65534) 97))).
  - reflexivity.
  - vm_compute. reflexivity.
Defined.

(** X2: a frame that [constructReply] returns consists of bytes only
    (every element is between 0 and 255), and its length is the payload
    length plus a header of 2 bytes for payloads under 126 bytes and of 4
    bytes otherwise. *)
Theorem constructReply_frame_size (data : jsval) (buf : list Z) :
  JSON.valid_value data = true ->
  constructReply data = Ok buf ->
  Forall (fun b => 0 <= b < 256) buf
  /\ exists json : jsstring,
       JSON.stringify data = Some json
       /\ UTF8.byteLength json <= 65535
       /\ Z.of_nat (length buf)
          = (if UTF8.byteLength json <? 126 then 2 else 4)
            + UTF8.byteLength json.
Proof.
  intros Hvalid Hbuf.
  destruct (JSON.stringify data) as [json|] eqn:Hjson.
  2:{ unfold constructReply in Hbuf. rewrite Hjson in Hbuf. discriminate Hbuf. }
  assert (Hbytes : Forall (fun b => 0 <= b < 256) (UTF8.encode json))
    by (apply FrameBytes.encode_bytes, (JSONFacts.wf_serialize data Hvalid), Hjson).
  assert (HL : UTF8.byteLength json = Z.of_nat (length (UTF8.encode json)))
    by reflexivity.
  destruct (Z.ltb_spec (UTF8.byteLength json) 126) as [Hs|Hs].
  - rewrite (FrameFacts.constructReply_short data json Hjson Hs) in Hbuf.
    injection Hbuf as <-. split.
    + repeat (constructor; [cbv beta; lia|]). exact Hbytes.
    + exists json. split; [reflexivity|]. split; [lia|].
      rewrite (proj2 (Z.ltb_lt _ _) Hs). cbn [length]. lia.
  - destruct (Z.leb_spec (UTF8.byteLength json) 65535) as [Hm|Hm].
    2:{ rewrite (FrameFacts.constructReply_too_long data json Hjson Hm) in Hbuf.
        discriminate Hbuf. }
    rewrite (FrameFacts.constructReply_extended data json Hjson (conj Hs Hm))
      in Hbuf.
    injection Hbuf as <-. split.
    + repeat (constructor; [cbv beta; zlia|]). exact Hbytes.
    + exists json. split; [reflexivity|]. split; [lia|].
      rewrite (proj2 (Z.ltb_ge _ _) Hs). cbn [length]. lia.
Qed.

(** An instance: the frame of an empty object. *)
Lemma constructReply_frame_size_witness :
  Forall (fun b => 0 <= b < 256) [129; 2; 123; 125]
  /\ exists json : jsstring,
       JSON.stringify (JObject [(lit "songInfo", JUndefined)]) = Some json
       /\ UTF8.byteLength json <= 65535
       /\ Z.of_nat (length [129; 2; 123; 125])
          = (if UTF8.byteLength json <? 126 then 2 else 4)
            + UTF8.byteLength json.
Proof.
  apply (constructReply_frame_size (JObject [(lit "songInfo", JUndefined)])
           [129; 2; 123; 125]); reflexivity.
Defined.

(* ================================================================== *)
(** * Further properties of [updateActivity] *)
(* ================================================================== *)

Module UpdateFacts.
Local Open Scope stmt_scope.

Local Abbreviation send :=
  (fun socket : Socket =>
     let! w := get_world in
     let! frame := lift (constructReply (songInfo_object w)) in
     socket_write socket frame).

(** The loop in one equation. *)
Lemma broadcast_result (l : list Socket) (w : World) :
  forEach l send w
  = match constructReply (songInfo_object w) with
    | Ok frame =>
        (Ok tt, {| state := state w; heap := heap w;
                   trace := trace w ++ ((fun s => SocketWrite s frame) <$> l) |})
    | Throw e =>
        match l with
        | [] => (Ok tt, {| state := state w; heap := heap w;
                           trace := trace w ++ [] |})
        | _ :: _ => (Throw e, {| state := state w; heap := heap w;
                                 trace := trace w ++ [] |})
        end
    end.
Proof.
  destruct (constructReply (songInfo_object w)) as [frame|e] eqn:E.
  - apply broadcast_ok, E.
  - rewrite app_nil_r. destruct l as [|s l].
    + destruct w; reflexivity.
    + rewrite (broadcast_throw _ _ _ _ E). destruct w; reflexivity.
Qed.

(** The object after the title has been filled up. *)
Local Abbreviation filled i :=
  (set_title
     (title i ++ replicate (Z.to_nat (2 - js_length (title i))) 0x3164) i).

Lemma updateActivity_ready_eq (songInfo : ref) (w : World) (i : SongInfo) :
  heap w !! songInfo = Some i -> ~ (title i = [] /\ artist i = []) ->
  ready (state w) = true ->
  ~ (js_length (artist i) < 2 /\ 2 < js_length (title i)) ->
  updateActivity songInfo w
  = forEach (Obj.values (wsSockets (state w))) send
      {| state := set_lastSongInfo (Some songInfo) (state w);
         heap := <[songInfo := filled i]> (heap w);
         trace := trace w |}.
Proof.
  intros Hi Hne Hr Hno.
  destruct (updateActivity_broadcasts _ _ _ Hi Hne Hr Hno) as (h & Hh & Ho & ->).
  replace h with (<[songInfo := filled i]> (heap w)); [reflexivity|].
  apply map_eq. intros k. destruct (decide (k = songInfo)) as [->|Hk].
  - rewrite lookup_insert_eq, Hh. reflexivity.
  - rewrite lookup_insert_ne by congruence. symmetry. apply Ho, Hk.
Qed.

(** What the call does depends on the state and the objects, not on what
    was done before. *)
Lemma updateActivity_trace_irrelevant (songInfo : ref) (w : World) (t : list event) :
  updateActivity songInfo {| state := state w; heap := heap w; trace := t |}
  = (fst (updateActivity songInfo w),
     {| state := state (snd (updateActivity songInfo w));
        heap := heap (snd (updateActivity songInfo w));
        trace := t ++ Spec.added w (snd (updateActivity songInfo w)) |}).
Proof.
  set (w0 := {| state := state w; heap := heap w; trace := t |}).
  destruct (heap w !! songInfo) as [i|] eqn:Hi.
  2:{ rewrite (updateActivity_dangling songInfo w0 Hi),
        (updateActivity_dangling songInfo w Hi). cbn [fst snd].
      rewrite (added_app w w []) by (symmetry; apply app_nil_r).
      rewrite app_nil_r. reflexivity. }
  destruct (decide (title i = [] /\ artist i = [])) as [[Ht Ha]|Hne].
  { rewrite (updateActivity_empty songInfo w0 i Hi Ht Ha),
      (updateActivity_empty songInfo w i Hi Ht Ha). cbn [fst snd].
    rewrite (added_app w w []) by (symmetry; apply app_nil_r).
    rewrite app_nil_r. reflexivity. }
  destruct (ready (state w)) eqn:Hr.
  2:{ rewrite (updateActivity_not_ready songInfo w0 i Hi Hne Hr),
        (updateActivity_not_ready songInfo w i Hi Hne Hr). cbn [fst snd].
      rewrite (added_app w _ []) by (symmetry; apply app_nil_r).
      rewrite app_nil_r. reflexivity. }
  destruct (decide (js_length (artist i) < 2 /\ 2 < js_length (title i)))
    as [[Ha Ht]|Hno].
  { rewrite (updateActivity_throws songInfo w0 i Hi Hr Ha Ht),
      (updateActivity_throws songInfo w i Hi Hr Ha Ht). cbn [fst snd].
    rewrite (added_app w _ []) by (symmetry; apply app_nil_r).
    rewrite app_nil_r. reflexivity. }
  rewrite (updateActivity_ready_eq songInfo w0 i Hi Hne Hr Hno),
    (updateActivity_ready_eq songInfo w i Hi Hne Hr Hno).
  rewrite !broadcast_result. cbn [state heap trace w0].
  match goal with
  | |- context [constructReply (songInfo_object ?a)] =>
      change (songInfo_object a)
        with (songInfo_object
                {| state := set_lastSongInfo (Some songInfo) (state w);
                   heap := <[songInfo := filled i]> (heap w);
                   trace := trace w |})
  end.
  destruct (constructReply _) as [frame|e];
    [|destruct (Obj.values (wsSockets (state w)))]; cbn [fst snd state heap];
    (erewrite (added_app w) by reflexivity); reflexivity.
Qed.

End UpdateFacts.

(** X3: with the server ready, an info whose title is longer than 2 units
    and whose artist is shorter than 2 makes [updateActivity] throw a
    RangeError ([repeat] with a negative count): the info has been stored,
    but nothing is broadcast and no object is changed. *)
Theorem updateActivity_long_title_short_artist
  (songInfo : ref) (w : World) (i : SongInfo) :
  heap w !! songInfo = Some i ->
  ready (state w) = true ->
  js_length (artist i) < 2 -> 2 < js_length (title i) ->
  fst (updateActivity songInfo w) = Throw RangeError
  /\ Spec.added w (snd (updateActivity songInfo w)) = []
  /\ heap (snd (updateActivity songInfo w)) = heap w
  /\ lastSongInfo (state (snd (updateActivity songInfo w))) = Some songInfo.
Proof.
  intros Hi Hr Ha Ht. rewrite (updateActivity_throws _ _ _ Hi Hr Ha Ht).
  cbn [fst snd state heap]. split; [reflexivity|].
  split; [|split; reflexivity].
  apply added_app. symmetry. apply app_nil_r.
Qed.

(** An instance: the title "ABC" with the artist "D". *)
Lemma updateActivity_long_title_short_artist_witness :
  fst (updateActivity 1%positive (listening (info_of "ABC" "D")))
  = Throw RangeError
  /\ Spec.added (listening (info_of "ABC" "D"))
       (snd (updateActivity 1%positive (listening (info_of "ABC" "D")))) = []
  /\ heap (snd (updateActivity 1%positive (listening (info_of "ABC" "D"))))
     = heap (listening (info_of "ABC" "D"))
  /\ lastSongInfo
       (state (snd (updateActivity 1%positive (listening (info_of "ABC" "D")))))
     = Some 1%positive.
Proof.
  apply (updateActivity_long_title_short_artist 1%positive
           (listening (info_of "ABC" "D")) (info_of "ABC" "D"));
    [reflexivity|reflexivity|vm_compute; reflexivity|vm_compute; reflexivity].
Defined.

(** X5: [updateActivity] can be repeated. After a call that returned
    normally for an info that is not blank, with the server ready, a second
    call on the same object returns normally, leaves the state and every
    object as they are and sends the same frames again; the title is
    filled up only once. *)
Theorem updateActivity_again
  (songInfo : ref) (w : World) (i : SongInfo) :
  heap w !! songInfo = Some i ->
  ~ (title i = [] /\ artist i = []) ->
  ready (state w) = true ->
  fst (updateActivity songInfo w) = Ok tt ->
  updateActivity songInfo (snd (updateActivity songInfo w))
  = (Ok tt,
     {| state := state (snd (updateActivity songInfo w));
        heap := heap (snd (updateActivity songInfo w));
        trace := trace (snd (updateActivity songInfo w))
                 ++ Spec.added w (snd (updateActivity songInfo w)) |}).
Proof.
  intros Hi Hne Hr Hok.
  destruct (decide (js_length (artist i) < 2 /\ 2 < js_length (title i)))
    as [[Ha Ht]|Hno].
  { rewrite (updateActivity_throws _ _ _ Hi Hr Ha Ht) in Hok. discriminate Hok. }
  revert Hok. rewrite (UpdateFacts.updateActivity_ready_eq _ _ _ Hi Hne Hr Hno).
  set (t' := title i ++ replicate (Z.to_nat (2 - js_length (title i))) 0x3164).
  set (w1 := {| state := set_lastSongInfo (Some songInfo) (state w);
                heap := <[songInfo := set_title t' i]> (heap w);
                trace := trace w |}).
  assert (Hlen : 2 <= js_length t').
  { unfold t', js_length. rewrite length_app, length_replicate.
    unfold js_length. lia. }
  assert (Hi1 : heap w1 !! songInfo = Some (set_title t' i))
    by apply lookup_insert_eq.
  assert (Hne1 : ~ (title (set_title t' i) = [] /\ artist (set_title t' i) = [])).
  { cbn [title set_title]. intros [H _]. rewrite H in Hlen.
    unfold js_length in Hlen. cbn [length] in Hlen. lia. }
  assert (Hno1 : ~ (js_length (artist (set_title t' i)) < 2
                    /\ 2 < js_length (title (set_title t' i)))).
  { cbn [title artist set_title]. intros [Ha Ht]. apply Hno. split; [exact Ha|].
    revert Ht. unfold t', js_length. rewrite length_app, length_replicate.
    unfold js_length. lia. }
  assert (Hsame : set_title
                    (title (set_title t' i)
                     ++ replicate
                          (Z.to_nat (2 - js_length (title (set_title t' i))))
                          0x3164) (set_title t' i)
                  = set_title t' i).
  { cbn [title set_title].
    replace (Z.to_nat (2 - js_length t')) with O by lia.
    cbn [replicate]. rewrite app_nil_r. reflexivity. }
  assert (Hstep : forall tr : list event,
             updateActivity songInfo
               {| state := state w1; heap := heap w1; trace := tr |}
             = forEach (Obj.values (wsSockets (state w)))
                 (fun socket : Socket =>
                    bind get_world (fun w2 =>
                      bind (lift (constructReply (songInfo_object w2)))
                        (fun frame => socket_write socket frame)))
                 {| state := state w1; heap := heap w1; trace := tr |}).
  { intros tr.
    rewrite (UpdateFacts.updateActivity_ready_eq songInfo
               {| state := state w1; heap := heap w1; trace := tr |}
               (set_title t' i) Hi1 Hne1 Hr Hno1).
    cbn [state heap trace w1 wsSockets set_lastSongInfo]. rewrite Hsame.
    rewrite insert_insert_eq. reflexivity. }
  rewrite UpdateFacts.broadcast_result.
  destruct (constructReply (songInfo_object w1)) as [frame|e] eqn:E.
  - intros _. cbn [snd state heap trace].
    rewrite (added_app w _ ((fun s => SocketWrite s frame)
                              <$> Obj.values (wsSockets (state w))))
      by reflexivity.
    rewrite (Hstep _), UpdateFacts.broadcast_result.
    change (songInfo_object _) with (songInfo_object w1). rewrite E.
    reflexivity.
  - destruct (Obj.values (wsSockets (state w))) as [|s l] eqn:El;
      [|intros H; discriminate H].
    intros _. cbn [snd state heap trace].
    rewrite (added_app w _ []) by reflexivity.
    rewrite (Hstep _). cbn [forEach]. unfold ret.
    rewrite !app_nil_r. reflexivity.
Qed.

(** An instance: the title "A" is filled up by the first call and kept by
    the second. *)
Lemma updateActivity_again_witness :
  fst (updateActivity 1%positive
         (snd (updateActivity 1%positive (listening (info_of "A" "B")))))
  = Ok tt
  /\ heap (snd (updateActivity 1%positive
                  (snd (updateActivity 1%positive (listening (info_of "A" "B"))))))
     = heap (snd (updateActivity 1%positive (listening (info_of "A" "B")))).
Proof.
  assert (Hne : ~ (title (info_of "A" "B") = [] /\ artist (info_of "A" "B") = []))
    by (intros [H _]; discriminate H).
  rewrite (updateActivity_again 1%positive (listening (info_of "A" "B"))
             (info_of "A" "B") eq_refl Hne eq_refl eq_refl).
  split; reflexivity.
Defined.

(** What a call of [updateActivity] can do to the outside and to the
    state: write frames to sockets of [wsSockets], and store its
    argument. *)
Lemma updateActivity_effect (songInfo : ref) (w : World) :
  exists sent : list event,
    trace (snd (updateActivity songInfo w)) = trace w ++ sent
    /\ Forall (fun e => exists (s : Socket) (frame : list Z),
                 e = SocketWrite s frame
                 /\ s ∈ Obj.values (wsSockets (state w))) sent
    /\ (state (snd (updateActivity songInfo w)) = state w
        \/ state (snd (updateActivity songInfo w))
           = set_lastSongInfo (Some songInfo) (state w)).
Proof.
  destruct (heap w !! songInfo) as [i|] eqn:Hi.
  2:{ rewrite (updateActivity_dangling songInfo w Hi). exists [].
      cbn [snd]. rewrite app_nil_r. auto. }
  destruct (decide (title i = [] /\ artist i = [])) as [[Ht Ha]|Hne].
  { rewrite (updateActivity_empty songInfo w i Hi Ht Ha). exists [].
    cbn [snd]. rewrite app_nil_r. auto. }
  destruct (ready (state w)) eqn:Hr.
  2:{ rewrite (updateActivity_not_ready songInfo w i Hi Hne Hr). exists [].
      cbn [snd state trace]. rewrite app_nil_r. auto. }
  destruct (decide (js_length (artist i) < 2 /\ 2 < js_length (title i)))
    as [[Ha Ht]|Hno].
  { rewrite (updateActivity_throws songInfo w i Hi Hr Ha Ht). exists [].
    cbn [snd state trace]. rewrite app_nil_r. auto. }
  rewrite (UpdateFacts.updateActivity_ready_eq songInfo w i Hi Hne Hr Hno).
  rewrite UpdateFacts.broadcast_result.
  destruct (constructReply _) as [frame|e].
  - eexists. cbn [snd state trace]. split; [reflexivity|]. split; [|auto].
    apply Forall_fmap, Forall_forall. intros s Hs. cbn. eauto.
  - exists []. destruct (Obj.values (wsSockets (state w)));
      cbn [snd state trace]; auto.
Qed.

(** X6: while the stored info has a JSON text of more than 65535 bytes, an
    upgrade request gets the 101 response but no frame: the handler throws
    a RangeError after the response is written, and the socket stays in
    [wsSockets]. *)
Theorem on_upgrade_with_oversized_info
  (req : IncomingMessage) (socket : Socket) (w : World) (json : jsstring) :
  JSON.stringify (songInfo_object w) = Some json ->
  65535 < UTF8.byteLength json ->
  fst (on_upgrade req socket w) = Throw RangeError
  /\ Spec.added w (snd (on_upgrade req socket w))
     = [SocketWrite socket (UTF8.encode (handshake req))]
  /\ Obj.get (nextSocketId (state w))
       (wsSockets (state (snd (on_upgrade req socket w)))) = Some socket.
Proof.
  intros Hjson HL. rewrite on_upgrade_spec.
  rewrite (FrameFacts.constructReply_too_long _ _ Hjson HL).
  cbn [fst snd state wsSockets set_wsSockets]. split; [reflexivity|].
  split; [apply added_app; reflexivity|apply get_set_eq].
Qed.

(** An instance: a title of 70000 letters was stored before the port was
    bound. *)
Lemma on_upgrade_with_oversized_info_witness :
  fst (on_upgrade sample_request 9%nat
         (snd (updateActivity 1%positive
                 (starting {| title := replicate (Z.to_nat 70000) 97;
                              artist := lit "B"; elapsedSeconds := 0;
                              others := [] |}))))
  = Throw RangeError.
Proof.
  assert (H : match JSON.stringify
                      (songInfo_object
                         (snd (updateActivity 1%positive
                                 (starting
                                    {| title := replicate (Z.to_nat 70000) 97;
                                       artist := lit "B"; elapsedSeconds := 0;
                                       others := [] |}))))
              with
              | Some json => 65535 <? UTF8.byteLength json
              | None => false
              end = true)
    by (vm_compute; reflexivity).
  destruct (JSON.stringify _) as [json|] eqn:E in H; [|discriminate H].
  apply Z.ltb_lt in H.
  exact (proj1 (on_upgrade_with_oversized_info sample_request 9%nat _ json E H)).
Defined.

(** X7: with the server ready and at least one upgraded connection, an
    info whose JSON text inside [{ songInfo: ... }] is longer than 65535
    bytes is stored but not broadcast: [updateActivity] throws a RangeError
    at the first socket and writes nothing. *)
Theorem updateActivity_with_oversized_info
  (songInfo : ref) (w : World) (i : SongInfo) (json : jsstring) :
  heap w !! songInfo = Some i ->
  ready (state w) = true ->
  2 <= js_length (title i) -> 2 <= js_length (artist i) ->
  wsSockets (state w) <> [] ->
  JSON.stringify (JObject [(lit "songInfo", SongInfo_value i)]) = Some json ->
  65535 < UTF8.byteLength json ->
  fst (updateActivity songInfo w) = Throw RangeError
  /\ Spec.added w (snd (updateActivity songInfo w)) = []
  /\ lastSongInfo (state (snd (updateActivity songInfo w))) = Some songInfo.
Proof.
  intros Hi Hr Ht Ha Hws Hjson HL.
  assert (Hne : ~ (title i = [] /\ artist i = [])).
  { intros [H _]. rewrite H in Ht. unfold js_length in Ht. cbn [length] in Ht. lia. }
  assert (Hno : ~ (js_length (artist i) < 2 /\ 2 < js_length (title i))) by lia.
  rewrite (UpdateFacts.updateActivity_ready_eq songInfo w i Hi Hne Hr Hno).
  replace (Z.to_nat (2 - js_length (title i))) with O by lia.
  cbn [replicate]. rewrite app_nil_r, set_title_same.
  rewrite UpdateFacts.broadcast_result.
  match goal with
  | |- context [constructReply ?d] =>
      replace (constructReply d) with (@Throw (list Z) RangeError)
  end.
  - destruct (wsSockets (state w)) as [|[k s] o]; [contradiction|].
    cbn [Obj.values fmap list_fmap fst snd state]. split; [reflexivity|].
    split; [apply added_app; reflexivity|reflexivity].
  - symmetry. apply (FrameFacts.constructReply_too_long _ json); [|exact HL].
    rewrite <- Hjson. unfold songInfo_object, lastSongInfo_value.
    cbn [state heap lastSongInfo set_lastSongInfo].
    rewrite lookup_insert_eq. reflexivity.
Qed.

(** An instance: a title of 70000 letters while one client is connected. *)
Lemma updateActivity_with_oversized_info_witness :
  fst (updateActivity 1%positive
         (listening {| title := replicate (Z.to_nat 70000) 97;
                       artist := lit "BC"; elapsedSeconds := 0;
                       others := [] |}))
  = Throw RangeError.
Proof.
  assert (H : match JSON.stringify
                      (JObject
                         [(lit "songInfo",
                           SongInfo_value
                             {| title := replicate (Z.to_nat 70000) 97;
                                artist := lit "BC"; elapsedSeconds := 0;
                                others := [] |})])
              with
              | Some json => 65535 <? UTF8.byteLength json
              | None => false
              end = true)
    by (vm_compute; reflexivity).
  destruct (JSON.stringify _) as [json|] eqn:E in H; [|discriminate H].
  apply Z.ltb_lt in H.
  refine (proj1 (updateActivity_with_oversized_info 1%positive
                   (listening {| title := replicate (Z.to_nat 70000) 97;
                                 artist := lit "BC"; elapsedSeconds := 0;
                                 others := [] |})
                   _ json eq_refl eq_refl _ _ _ E H)).
  - unfold js_length. cbn [title]. rewrite length_replicate. lia.
  - vm_compute. discriminate.
  - discriminate.
Defined.

(** X8: [stop] does not end the broadcasts. Every socket that
    [updateActivity] would write to is destroyed by [stop] when a server
    exists, and the same [updateActivity] called after [stop] has the same
    outcome and writes the same frames to the same sockets. *)
Theorem stop_does_not_end_broadcasts (songInfo : ref) (w : World) :
  fst (updateActivity songInfo (snd (stop w))) = fst (updateActivity songInfo w)
  /\ Spec.added (snd (stop w)) (snd (updateActivity songInfo (snd (stop w))))
     = Spec.added w (snd (updateActivity songInfo w))
  /\ forall (s : Socket) (frame : list Z),
       httpServer (state w) <> None ->
       SocketWrite s frame ∈ Spec.added w (snd (updateActivity songInfo w)) ->
       SocketDestroy s ∈ Spec.added w (snd (stop w)).
Proof.
  rewrite stop_spec. cbn [snd].
  rewrite UpdateFacts.updateActivity_trace_irrelevant. cbn [fst snd].
  split; [reflexivity|]. split; [apply added_app; reflexivity|].
  intros s frame Hserver Hin.
  erewrite (added_app w) by (cbn [trace]; reflexivity).
  destruct (httpServer (state w)); [|contradiction].
  destruct (updateActivity_effect songInfo w) as (sent & Hsent & Hall & _).
  rewrite (added_app _ _ _ Hsent) in Hin.
  rewrite Forall_forall in Hall. destruct (Hall _ Hin) as (s' & f' & [= <- <-] & Hs').
  apply list_elem_of_further, elem_of_app. left.
  apply list_elem_of_fmap. exists s. split; [reflexivity|exact Hs'].
Qed.

(* ================================================================== *)
(** * The registries over a run *)
(* ================================================================== *)

Module RegistryFacts.
Import Runs.

Section Registry.
Context {V : Type}.
Implicit Types (o : list (Z * V)) (k : Z) (v : V).

(** A key above all the others goes to the end: enumeration by ascending
    key is then enumeration by insertion. *)
Lemma set_fresh k v o :
  Forall (fun k' => k' < k) (keys o) -> Obj.set k v o = o ++ [(k, v)].
Proof.
  induction o as [|[k' v'] o IH]; intros H; [reflexivity|].
  apply Forall_cons in H as [Hk' H]. cbn [fst] in Hk'. cbn [Obj.set].
  destruct (Z.ltb_spec k k'); [lia|]. destruct (Z.eqb_spec k k'); [lia|].
  rewrite (IH H). reflexivity.
Qed.

Lemma keys_delete_sublist k o : keys (Obj.delete k o) `sublist_of` keys o.
Proof.
  induction o as [|[k' v'] o IH]; [constructor|]. cbn [Obj.delete].
  destruct (Z.eqb_spec k k').
  - apply sublist_cons, IH.
  - apply sublist_skip, IH.
Qed.

Lemma keys_delete_elem k k' o : k' ∈ keys (Obj.delete k o) -> k' ∈ keys o.
Proof. intros H. exact (elem_of_sublist _ _ _ H (keys_delete_sublist k o)). Qed.

Lemma get_delete_eq k o : Obj.get k (Obj.delete k o) = None.
Proof.
  induction o as [|[k' v'] o IH]; [reflexivity|]. cbn [Obj.delete].
  destruct (Z.eqb_spec k k') as [|Hne]; [exact IH|].
  cbn [Obj.get]. destruct (Z.eqb_spec k k'); [contradiction|exact IH].
Qed.

Lemma delete_absent k o : k ∉ keys o -> Obj.delete k o = o.
Proof.
  induction o as [|[k' v'] o IH]; intros H; [reflexivity|].
  cbn [Obj.delete]. apply not_elem_of_cons in H as [Hne H]. cbn [fst] in Hne.
  destruct (Z.eqb_spec k k'); [contradiction|]. rewrite (IH H). reflexivity.
Qed.

Lemma delete_app k o o' :
  Obj.delete k (o ++ o') = Obj.delete k o ++ Obj.delete k o'.
Proof.
  induction o as [|[k' v'] o IH]; [reflexivity|]. cbn [app Obj.delete].
  destruct (Z.eqb_spec k k'); rewrite IH; reflexivity.
Qed.

Lemma delete_set_fresh k v o :
  Forall (fun k' => k' < k) (keys o) -> Obj.delete k (Obj.set k v o) = o.
Proof.
  intros H. rewrite (set_fresh k v o H), delete_app.
  cbn [Obj.delete]. rewrite Z.eqb_refl, app_nil_r.
  apply delete_absent. intros Hin. rewrite Forall_forall in H.
  specialize (H k Hin). lia.
Qed.

Lemma delete_twice k o : Obj.delete k (Obj.delete k o) = Obj.delete k o.
Proof.
  induction o as [|[k' v'] o IH]; [reflexivity|]. cbn [Obj.delete].
  destruct (Z.eqb_spec k k') as [|Hne]; [exact IH|].
  cbn [Obj.delete]. destruct (Z.eqb_spec k k'); [contradiction|].
  rewrite IH. reflexivity.
Qed.

End Registry.

(** The state after each handler. *)
Lemma after_connection (socket : Socket) (w : World) :
  state (after (HConnection socket) w)
  = set_httpSockets
      (Obj.set (nextSocketId (state w)) socket (httpSockets (state w)))
      (set_nextSocketId (Backend.post_increment (nextSocketId (state w)))
         (state w)).
Proof. reflexivity. Qed.

Lemma after_upgrade (req : IncomingMessage) (socket : Socket) (w : World) :
  state (after (HUpgrade req socket) w)
  = set_wsSockets
      (Obj.set (nextSocketId (state w)) socket (wsSockets (state w)))
      (set_nextSocketId (Backend.post_increment (nextSocketId (state w)))
         (state w)).
Proof.
  unfold after, run, bind. rewrite on_upgrade_spec.
  destruct (constructReply (songInfo_object w)); reflexivity.
Qed.

Lemma after_request (res : Response) (w : World) :
  state (after (HRequest res) w) = state w.
Proof.
  unfold after, run, on_request, bind, get_world.
  destruct (JSON.stringify (songInfo_object w)); reflexivity.
Qed.

Lemma after_stop (w : World) : state (after HStop w) = state w.
Proof. unfold after, run. rewrite stop_spec. reflexivity. Qed.

Lemma after_updateActivity (songInfo : ref) (w : World) :
  state (after (HUpdateActivity songInfo) w) = state w
  \/ state (after (HUpdateActivity songInfo) w)
     = set_lastSongInfo (Some songInfo) (state w).
Proof.
  destruct (updateActivity_effect songInfo w) as (sent & _ & _ & H). exact H.
Qed.

Lemma after_configChange (w : World) :
  state (after HConfigChange w) = state w
  \/ exists r, state (after HConfigChange w) = set_lastSongInfo (Some r) (state w).
Proof.
  unfold after, run, Backend.onConfigChange, bind, get_world.
  destruct (lastSongInfo (state w)) as [r|]; [|left; reflexivity].
  destruct (updateActivity_effect r w) as (sent & _ & _ & [H|H]); eauto.
Qed.

(** Every handler leaves the registries and the counter alone, except the
    four that are there for them. *)
Lemma after_registries (h : handler) (w : World) :
  match h with
  | HConnection _ | HUpgrade _ _ | HClose _ | HEnd _ => True
  | _ =>
      httpSockets (state (after h w)) = httpSockets (state w)
      /\ wsSockets (state (after h w)) = wsSockets (state w)
      /\ nextSocketId (state (after h w)) = nextSocketId (state w)
  end.
Proof.
  destruct h; try exact I; try (repeat split; reflexivity).
  - rewrite after_stop. auto.
  - destruct (after_updateActivity songInfo w) as [-> | ->]; auto.
  - destruct (after_configChange w) as [-> | [r ->]]; auto.
Qed.

End RegistryFacts.

(** X9: in every world reached in [n] steps from the start of the
    process, as long as [n] is at most 2^53, every identifier in use is
    below [nextSocketId], and no identifier is used twice, neither within
    one registry nor across the two: connection identifiers are unique
    across plain and upgraded connections. *)
Theorem identifiers_are_unique (n : nat) (w : World) :
  Runs.reachable n w ->
  Z.of_nat n <= 2 ^ 53 ->
  0 <= nextSocketId (state w) <= Z.of_nat n
  /\ Forall (fun k => 0 <= k < nextSocketId (state w)) (Runs.ids (state w))
  /\ NoDup (Runs.ids (state w)).
Proof.
  induction 1 as [h|n w w' Hreach IH Hstep]; intros Hn.
  { cbn. split; [lia|]. split; constructor. }
  destruct IH as (Hnext & Hall & Hdup); [lia|].
  assert (Hkeep : forall s' : State,
             httpSockets s' = httpSockets (state w) ->
             wsSockets s' = wsSockets (state w) ->
             nextSocketId s' = nextSocketId (state w) ->
             0 <= nextSocketId s' <= Z.of_nat (S n)
             /\ Forall (fun k => 0 <= k < nextSocketId s') (Runs.ids s')
             /\ NoDup (Runs.ids s')).
  { intros s' H1 H2 H3. unfold Runs.ids. rewrite H1, H2, H3.
    split; [lia|]. split; assumption. }
  assert (Hinc : Backend.post_increment (nextSocketId (state w))
                 = nextSocketId (state w) + 1).
  { unfold Backend.post_increment.
    destruct (Z.ltb_spec (nextSocketId (state w)) (2 ^ 53)); lia. }
  assert (Hlt : Forall (fun k => k < nextSocketId (state w)) (Runs.ids (state w))).
  { eapply Forall_impl; [exact Hall|]. cbv beta. lia. }
  unfold Runs.ids in Hall, Hdup, Hlt.
  apply Forall_app in Hlt as [Hlt1 Hlt2].
  destruct Hstep as [h w|f w]; [|apply Hkeep; reflexivity].
  pose proof (RegistryFacts.after_registries h w) as Hreg.
  destruct h; try (destruct Hreg as (H1 & H2 & H3); apply Hkeep; assumption).
  - (* a plain connection *)
    rewrite RegistryFacts.after_connection. unfold Runs.ids.
    cbn [httpSockets wsSockets nextSocketId set_httpSockets set_nextSocketId].
    rewrite Hinc, (RegistryFacts.set_fresh _ _ _ Hlt1).
    unfold Runs.keys. rewrite fmap_app. cbn [fmap list_fmap fst].
    fold (Runs.keys (httpSockets (state w))) (Runs.keys (wsSockets (state w))).
    split; [lia|]. split.
    + rewrite <- app_assoc. apply Forall_app in Hall as [Ha1 Ha2].
      apply Forall_app. split.
      * eapply Forall_impl; [exact Ha1|]. cbv beta. lia.
      * constructor; [cbv beta; lia|].
        eapply Forall_impl; [exact Ha2|]. cbv beta. lia.
    + rewrite <- app_assoc.
      apply NoDup_app in Hdup as (Hd1 & Hd12 & Hd2).
      apply NoDup_app. split; [exact Hd1|]. split.
      * intros x Hx Hx'. apply elem_of_cons in Hx' as [->|Hx'].
        -- rewrite Forall_forall in Hlt1. specialize (Hlt1 _ Hx). lia.
        -- exact (Hd12 x Hx Hx').
      * apply NoDup_cons. split; [|exact Hd2]. intros Hx.
        rewrite Forall_forall in Hlt2. specialize (Hlt2 _ Hx). lia.
  - (* a plain connection closes *)
    unfold Runs.ids. cbn.
    split; [lia|]. split.
    + apply Forall_app in Hall as [Ha1 Ha2]. apply Forall_app. split; [|exact Ha2].
      rewrite Forall_forall in Ha1 |- *. intros x Hx.
      apply Ha1, (RegistryFacts.keys_delete_elem id), Hx.
    + refine (sublist_NoDup _ _ Hdup _).
      apply sublist_app; [apply RegistryFacts.keys_delete_sublist|reflexivity].
  - (* an upgrade *)
    rewrite RegistryFacts.after_upgrade. unfold Runs.ids.
    cbn [httpSockets wsSockets nextSocketId set_wsSockets set_nextSocketId].
    rewrite Hinc, (RegistryFacts.set_fresh _ _ _ Hlt2).
    unfold Runs.keys. rewrite fmap_app. cbn [fmap list_fmap fst].
    fold (Runs.keys (httpSockets (state w))) (Runs.keys (wsSockets (state w))).
    split; [lia|]. split.
    + rewrite app_assoc. apply Forall_app.
      split; [|constructor; [cbv beta; lia|constructor]].
      eapply Forall_impl; [exact Hall|]. cbv beta. lia.
    + rewrite app_assoc. apply NoDup_app. split; [exact Hdup|].
      split; [|apply NoDup_singleton].
      intros x Hx Hx'. apply list_elem_of_singleton in Hx'. subst x.
      rewrite Forall_forall in Hall. specialize (Hall _ Hx). lia.
  - (* an upgraded connection ends *)
    unfold Runs.ids. cbn.
    split; [lia|]. split.
    + apply Forall_app in Hall as [Ha1 Ha2]. apply Forall_app. split; [exact Ha1|].
      rewrite Forall_forall in Ha2 |- *. intros x Hx.
      apply Ha2, (RegistryFacts.keys_delete_elem id), Hx.
    + refine (sublist_NoDup _ _ Hdup _).
      apply sublist_app; [reflexivity|apply RegistryFacts.keys_delete_sublist].
Qed.

(** An instance: a plain connection and then an upgrade, from the start. *)
Lemma identifiers_are_unique_witness :
  0 <= nextSocketId
         (state (Runs.after (Runs.HUpgrade sample_request 8%nat)
                   (Runs.after (Runs.HConnection 7%nat) initial_world)))
    <= 2
  /\ Forall (fun k =>
               0 <= k
               < nextSocketId
                   (state (Runs.after (Runs.HUpgrade sample_request 8%nat)
                             (Runs.after (Runs.HConnection 7%nat) initial_world))))
       (Runs.ids
          (state (Runs.after (Runs.HUpgrade sample_request 8%nat)
                    (Runs.after (Runs.HConnection 7%nat) initial_world))))
  /\ NoDup
       (Runs.ids
          (state (Runs.after (Runs.HUpgrade sample_request 8%nat)
                    (Runs.after (Runs.HConnection 7%nat) initial_world)))).
Proof.
  apply (identifiers_are_unique 2).
  - apply Runs.reachable_step with (w := Runs.after (Runs.HConnection 7%nat) initial_world);
      [|apply Runs.step_handler].
    apply Runs.reachable_step with (w := initial_world);
      [|apply Runs.step_handler].
    apply (Runs.reachable_start ∅).
  - vm_compute. discriminate.
Defined.

(** X10: registering and unregistering undo each other. When the
    identifiers in use are below [nextSocketId], a new plain connection is
    found under the identifier the handler returns, and the ['close']
    handler for that identifier puts [httpSockets] back to what it was; a
    second ['close'] changes nothing. The same holds for an upgrade and its
    ['end'] handler with [wsSockets]. *)
Theorem register_then_unregister
  (req : IncomingMessage) (socket : Socket) (w : World) :
  Forall (fun k => k < nextSocketId (state w)) (Runs.ids (state w)) ->
  (fst (on_connection socket w) = Ok (nextSocketId (state w))
   /\ Obj.get (nextSocketId (state w))
        (httpSockets (state (snd (on_connection socket w)))) = Some socket
   /\ httpSockets
        (state (snd (on_close (nextSocketId (state w))
                       (snd (on_connection socket w)))))
      = httpSockets (state w)
   /\ on_close (nextSocketId (state w))
        (snd (on_close (nextSocketId (state w)) (snd (on_connection socket w))))
      = (Ok tt,
         snd (on_close (nextSocketId (state w)) (snd (on_connection socket w)))))
  /\ (Obj.get (nextSocketId (state w))
        (wsSockets (state (snd (on_upgrade req socket w)))) = Some socket
      /\ wsSockets
           (state (snd (on_end (nextSocketId (state w))
                          (snd (on_upgrade req socket w)))))
         = wsSockets (state w)
      /\ on_end (nextSocketId (state w))
           (snd (on_end (nextSocketId (state w)) (snd (on_upgrade req socket w))))
         = (Ok tt,
            snd (on_end (nextSocketId (state w)) (snd (on_upgrade req socket w))))).
Proof.
  intros H. unfold Runs.ids in H. apply Forall_app in H as [H1 H2]. split.
  - split; [reflexivity|]. split; [apply get_set_eq|].
    split.
    + cbn. apply RegistryFacts.delete_set_fresh, H1.
    + unfold on_close, modify, with_state, set_httpSockets.
      cbn [snd state httpSockets]. rewrite RegistryFacts.delete_twice.
      reflexivity.
  - rewrite on_upgrade_spec. cbn [snd state wsSockets set_wsSockets].
    split; [apply get_set_eq|]. split.
    + cbn. apply RegistryFacts.delete_set_fresh, H2.
    + unfold on_end, modify, with_state, set_wsSockets.
      cbn [snd state wsSockets]. rewrite RegistryFacts.delete_twice.
      reflexivity.
Qed.

(** An instance: a second client while the server listens. *)
Lemma register_then_unregister_witness :
  httpSockets
    (state (snd (on_close 2 (snd (on_connection 9%nat (listening blank_info))))))
  = [(0, 7%nat)]
  /\ wsSockets
       (state (snd (on_end 2
                      (snd (on_upgrade sample_request 9%nat
                              (listening blank_info))))))
     = [(1, 8%nat)].
Proof.
  assert (H : Forall (fun k => k < nextSocketId (state (listening blank_info)))
                (Runs.ids (state (listening blank_info))))
    by (repeat constructor).
  destruct (register_then_unregister sample_request 9%nat
              (listening blank_info) H)
    as ((_ & _ & H1 & _) & (_ & H2 & _)).
  split; [exact H1|exact H2].
Defined.

(** X11: no handler takes back what was set: once [ready] is true it stays
    true, once a server exists it stays, and once an info is stored some
    info stays stored, through every handler, [stop] included. *)
Theorem nothing_is_reset (h : Runs.handler) (w : World) :
  (ready (state w) = true -> ready (state (Runs.after h w)) = true)
  /\ (httpServer (state w) <> None -> httpServer (state (Runs.after h w)) <> None)
  /\ (lastSongInfo (state w) <> None
      -> lastSongInfo (state (Runs.after h w)) <> None).
Proof.
  destruct h;
    try (cbn; repeat split; try discriminate; intros H; exact H).
  - rewrite RegistryFacts.after_upgrade. cbn. auto.
  - rewrite RegistryFacts.after_stop. auto.
  - destruct (RegistryFacts.after_updateActivity songInfo w) as [-> | ->];
      cbn; repeat split; try discriminate; auto.
  - destruct (RegistryFacts.after_configChange w) as [-> | [r ->]];
      cbn; repeat split; try discriminate; auto.
Qed.

(** X12: frames and responses of the upgrade go to upgraded connections
    only: whatever a handler writes to a socket, that socket is in
    [wsSockets] when the handler is done. *)
Theorem writes_go_to_upgraded_sockets
  (h : Runs.handler) (w : World) (s : Socket) (bytes : list Z) :
  SocketWrite s bytes ∈ Spec.added w (Runs.after h w) ->
  s ∈ Obj.values (wsSockets (state (Runs.after h w))).
Proof.
  assert (Hnil : forall w' : World,
             trace w' = trace w ++ [] ->
             SocketWrite s bytes ∈ Spec.added w w' ->
             s ∈ Obj.values (wsSockets (state w'))).
  { intros w' Ht. rewrite (added_app _ _ _ Ht). intros H.
    apply not_elem_of_nil in H. contradiction. }
  assert (Hone : forall (w' : World) (e : event),
             trace w' = trace w ++ [e] ->
             (forall s' b', e <> SocketWrite s' b') ->
             SocketWrite s bytes ∈ Spec.added w w' ->
             s ∈ Obj.values (wsSockets (state w'))).
  { intros w' e Ht He. rewrite (added_app _ _ _ Ht). intros H.
    apply list_elem_of_singleton in H. symmetry in H. apply He in H.
    contradiction. }
  assert (Hupd : forall r : ref,
             SocketWrite s bytes ∈ Spec.added w (snd (updateActivity r w)) ->
             s ∈ Obj.values (wsSockets (state (snd (updateActivity r w))))).
  { intros r. destruct (updateActivity_effect r w) as (sent & Ht & Hall & Hst).
    rewrite (added_app _ _ _ Ht). intros Hin. rewrite Forall_forall in Hall.
    destruct (Hall _ Hin) as (s' & f' & [= <- <-] & Hs).
    destruct Hst as [-> | ->]; exact Hs. }
  destruct h.
  - (* start *) apply (Hone _ (Listen 23232)); [reflexivity|discriminate].
  - apply Hnil. symmetry. apply app_nil_r.
  - eapply Hone; [reflexivity|discriminate].
  - apply Hnil. symmetry. apply app_nil_r.
  - apply Hnil. symmetry. apply app_nil_r.
  - (* upgrade *)
    unfold Runs.after, Runs.run, bind. rewrite on_upgrade_spec.
    intros Hin.
    assert (Hs : s = socket).
    { destruct (constructReply (songInfo_object w)); cbn [snd] in Hin;
        erewrite (added_app w) in Hin by (cbn [trace]; reflexivity);
        repeat (apply elem_of_cons in Hin as [[= -> _]|Hin]; [reflexivity|]);
        apply not_elem_of_nil in Hin; contradiction. }
    subst s.
    assert (Hget := get_set_eq (nextSocketId (state w)) socket
                      (wsSockets (state w))).
    apply get_values in Hget.
    destruct (constructReply (songInfo_object w)); exact Hget.
  - apply Hnil. symmetry. apply app_nil_r.
  - (* stop *)
    unfold Runs.after, Runs.run. rewrite stop_spec. cbn [snd state].
    erewrite (added_app w) by (cbn [trace]; reflexivity).
    intros Hin. destruct (httpServer (state w));
      [|apply not_elem_of_nil in Hin; contradiction].
    apply elem_of_cons in Hin as [Hin|Hin]; [discriminate Hin|].
    apply elem_of_app in Hin as [Hin|Hin];
      apply list_elem_of_fmap in Hin as (x & Hx & _); discriminate Hx.
  - apply Hupd.
  - unfold Runs.after, Runs.run, Backend.onConfigChange, bind, get_world.
    destruct (lastSongInfo (state w)) as [r|]; [apply Hupd|].
    apply Hnil. symmetry. apply app_nil_r.
Qed.

(** An instance: the frame of an update goes to socket 8, the upgraded
    connection. *)
Lemma writes_go_to_upgraded_sockets_witness :
  8%nat
  ∈ Obj.values
      (wsSockets
         (state (Runs.after (Runs.HUpdateActivity 1%positive)
                   (listening (info_of "AB" "CD"))))).
Proof.
  apply (writes_go_to_upgraded_sockets (Runs.HUpdateActivity 1%positive)
           (listening (info_of "AB" "CD")) 8%nat
           (129 :: 60
            :: UTF8.encode
                 (lit "{" ++ quoted "songInfo" ++ lit ":{"
                  ++ quoted "title" ++ lit ":" ++ quoted "AB"
                  ++ lit "," ++ quoted "artist" ++ lit ":" ++ quoted "CD"
                  ++ lit "," ++ quoted "elapsedSeconds" ++ lit ":0}}"))).
  vm_compute. apply list_elem_of_here.
Defined.

(* ================================================================== *)
(** * The plain read and the handshake text *)
(* ================================================================== *)

(** X13: the request handler answers every plain request, whatever is
    stored: it does not throw, changes neither the state nor any object, and
    responds with status 200, the JSON text of
    [{ songInfo: state.lastSongInfo }] as the body and its length in bytes,
    in decimal, as [Content-Length]. That text is also what the frame
    pushed to a new upgraded connection in the same world decodes to. *)
Theorem on_request_replies (res : Response) (w : World) :
  exists json : jsstring,
    JSON.stringify (songInfo_object w) = Some json
    /\ on_request res w
       = (Ok tt,
          {| state := state w; heap := heap w;
             trace := trace w
                      ++ [Respond res 200
                            [(lit "Content-Type", lit "application/json");
                             (lit "Access-Control-Allow-Origin", lit "*");
                             (lit "Content-Length",
                              JSON.number_to_string (UTF8.byteLength json))]
                            json] |})
    /\ forall frame : list Z,
         JSON.valid_value (songInfo_object w) = true ->
         constructReply (songInfo_object w) = Ok frame ->
         UTF8.decode
           (drop (if UTF8.byteLength json <? 126 then 2 else 4) frame)
         = Some json.
Proof.
  pose proof (songInfo_object_json w) as Hjson. eexists.
  split; [exact Hjson|]. split.
  - unfold on_request, bind, get_world. rewrite Hjson. reflexivity.
  - intros frame Hvalid Hframe.
    match type of Hjson with _ = Some ?j => set (json := j) in * end.
    assert (Hrt : UTF8.decode (UTF8.encode json) = Some json)
      by (apply RoundTrip.decode_encode,
            (JSONFacts.wf_serialize _ Hvalid), Hjson).
    destruct (Z.ltb_spec (UTF8.byteLength json) 126) as [Hs|Hs].
    + rewrite (FrameFacts.constructReply_short _ json Hjson Hs) in Hframe.
      injection Hframe as <-. exact Hrt.
    + destruct (Z.leb_spec (UTF8.byteLength json) 65535) as [Hm|Hm].
      * rewrite (FrameFacts.constructReply_extended _ json Hjson (conj Hs Hm))
          in Hframe.
        injection Hframe as <-. exact Hrt.
      * rewrite (FrameFacts.constructReply_too_long _ json Hjson Hm) in Hframe.
        discriminate Hframe.
Qed.

Module TokenFacts.
Import WellFormedFacts.

Local Abbreviation base64_char :=
  (fun c : Z =>
     65 <= c <= 90 \/ 97 <= c <= 122 \/ 48 <= c <= 57 \/ c = 43 \/ c = 47).

Lemma char_base64 (i : Z) : 0 <= i < 64 -> base64_char (Base64.char i).
Proof. intros H. unfold Base64.char. repeat case_test; lia. Qed.

Lemma be_bytes_4 (x : Z) :
  exists b0 b1 b2 b3 : Z,
    SHA1.be_bytes 4 x = [b0; b1; b2; b3]
    /\ 0 <= b0 < 256 /\ 0 <= b1 < 256 /\ 0 <= b2 < 256 /\ 0 <= b3 < 256.
Proof.
  eexists _, _, _, _. split; [reflexivity|].
  repeat split; apply Z.mod_pos_bound; lia.
Qed.

(** The digest is twenty bytes. *)
Lemma digest_bytes (msg : list Z) :
  length (SHA1.digest msg) = 20%nat
  /\ Forall (fun b => 0 <= b < 256) (SHA1.digest msg).
Proof.
  unfold SHA1.digest.
  destruct (SHA1.blocks _ _ _) as [[[[a b] c] d] e].
  destruct (be_bytes_4 a) as (a0 & a1 & a2 & a3 & -> & ? & ? & ? & ?).
  destruct (be_bytes_4 b) as (b0 & b1 & b2 & b3 & -> & ? & ? & ? & ?).
  destruct (be_bytes_4 c) as (c0 & c1 & c2 & c3 & -> & ? & ? & ? & ?).
  destruct (be_bytes_4 d) as (d0 & d1 & d2 & d3 & -> & ? & ? & ? & ?).
  destruct (be_bytes_4 e) as (e0 & e1 & e2 & e3 & -> & ? & ? & ? & ?).
  split; [reflexivity|]. cbn [app]. repeat (constructor; [assumption|]).
  constructor.
Qed.

(** Twenty bytes give twenty-seven characters of the alphabet and one
    [=]. *)
Lemma encode_20 (bs : list Z) :
  length bs = 20%nat -> Forall (fun b => 0 <= b < 256) bs ->
  exists body : jsstring,
    Base64.encode bs = body ++ [61]
    /\ length body = 27%nat
    /\ Forall base64_char body.
Proof.
  intros Hlen Hall.
  do 20 (destruct bs as [|? bs]; [discriminate Hlen|]).
  destruct bs; [|discriminate Hlen].
  repeat match goal with
         | H : Forall _ (_ :: _) |- _ => apply Forall_cons in H as [? H]
         end.
  cbn [Base64.encode].
  eexists [_; _; _; _; _; _; _; _; _; _; _; _; _; _; _; _; _; _; _; _; _; _;
           _; _; _; _; _].
  split; [reflexivity|]. split; [reflexivity|].
  repeat (constructor; [apply char_base64; zlia|]). constructor.
Qed.

(** ASCII text is its own UTF-8. *)
Lemma encode_ascii (s : jsstring) :
  Forall (fun c => 0 <= c < 0x80) s -> UTF8.encode s = s.
Proof.
  induction 1 as [|c s Hc _ IH]; [reflexivity|].
  rewrite encode_unit, IH.
  - unfold UTF8.of_cp. destruct (Z.ltb_spec c 0x80); [reflexivity|lia].
  - unfold JSString.is_surrogate. repeat case_test; simpl; try reflexivity; lia.
Qed.

Lemma ascii_test (s : jsstring) :
  forallb (fun c => (0 <=? c) && (c <? 0x80)) s = true ->
  Forall (fun c => 0 <= c < 0x80) s.
Proof.
  induction s as [|c s IH]; [constructor|]. cbn [forallb]. intros H.
  apply andb_prop in H as [Hc Hs]. constructor; [|exact (IH Hs)].
  apply andb_prop in Hc as [H0 H1]. lia.
Qed.

End TokenFacts.

(** X14: whatever the key header, absent or not, the accept token is 28
    characters: 27 letters, digits, [+] or [/] and a final [=]. The 101
    response is therefore 139 characters of ASCII, written as 139 bytes,
    and a header value cannot break out of its line. *)
Theorem handshake_is_well_formed (req : IncomingMessage) :
  (exists body : jsstring,
     responseKey req = body ++ [61]
     /\ length body = 27%nat
     /\ Forall (fun c => 65 <= c <= 90 \/ 97 <= c <= 122 \/ 48 <= c <= 57
                         \/ c = 43 \/ c = 47) body)
  /\ UTF8.encode (handshake req) = handshake req
  /\ length (handshake req) = 139%nat.
Proof.
  destruct (TokenFacts.digest_bytes (UTF8.encode (key req))) as [Hlen Hbytes].
  destruct (TokenFacts.encode_20 _ Hlen Hbytes) as (body & Hbody & Hl & Hall).
  fold (responseKey req) in Hbody.
  split; [exists body; auto|].
  unfold handshake. rewrite Hbody. split.
  - apply TokenFacts.encode_ascii.
    repeat (apply Forall_app; split);
      try (apply TokenFacts.ascii_test; vm_compute; reflexivity).
    eapply Forall_impl; [exact Hall|]. cbv beta. lia.
  - rewrite !length_app, Hl. reflexivity.
Qed.

(* ================================================================== *)
(** * The elapsed-time updates *)
(* ================================================================== *)

(** [updateActivity] changes nothing of the object but its title, and no
    other object. *)
Lemma updateActivity_object (songInfo : ref) (w : World) (i : SongInfo) :
  heap w !! songInfo = Some i ->
  (exists i' : SongInfo,
     heap (snd (updateActivity songInfo w)) !! songInfo = Some i'
     /\ artist i' = artist i
     /\ elapsedSeconds i' = elapsedSeconds i
     /\ others i' = others i)
  /\ forall r : ref,
       r <> songInfo ->
       heap (snd (updateActivity songInfo w)) !! r = heap w !! r.
Proof.
  intros Hi.
  destruct (decide (title i = [] /\ artist i = [])) as [[Ht Ha]|Hne].
  { rewrite (updateActivity_empty _ _ _ Hi Ht Ha). cbn [snd]. eauto 10. }
  destruct (ready (state w)) eqn:Hr.
  2:{ rewrite (updateActivity_not_ready _ _ _ Hi Hne Hr). cbn [snd heap].
      eauto 10. }
  destruct (decide (js_length (artist i) < 2 /\ 2 < js_length (title i)))
    as [[Ha Ht]|Hno].
  { rewrite (updateActivity_throws _ _ _ Hi Hr Ha Ht). cbn [snd heap].
    eauto 10. }
  rewrite (UpdateFacts.updateActivity_ready_eq _ _ _ Hi Hne Hr Hno).
  rewrite UpdateFacts.broadcast_result.
  destruct (constructReply _); [|destruct (Obj.values (wsSockets (state w)))];
    cbn [snd heap]; (split;
      [eexists; split; [apply lookup_insert_eq|repeat split]
      |intros r Hne'; apply lookup_insert_ne; congruence]).
Qed.

(** X15: the elapsed-time updates are rate limited. A series of
    [ytmd:time-changed] events none of which comes more than 5000 ms after
    the last accepted one is dropped as a whole: no object is changed,
    nothing is stored or sent, and the time of the last accepted event
    stays. *)
Theorem time_changes_within_5s
  (events : list (Z * Z)) (c : ReadyToShow.Closure) (w : World) :
  Forall (fun e => snd e - ReadyToShow.lastSent c <= 5000) events ->
  ReadyToShow.time_changes events c w = (c, w).
Proof.
  induction 1 as [|[t now] events Hnow _ IH]; [reflexivity|].
  cbn [snd] in Hnow. cbn [ReadyToShow.time_changes].
  unfold ReadyToShow.on_time_changed.
  destruct (Z.ltb_spec 5000 (now - ReadyToShow.lastSent c)); [lia|].
  exact IH.
Qed.

(** An instance: three events within five seconds of the window's
    [ready-to-show], at 1000. *)
Lemma time_changes_within_5s_witness :
  ReadyToShow.time_changes [(1, 2000); (2, 3000); (5, 6000)]
    (ReadyToShow.ready_to_show (Some default_config) 1000)
    (listening (info_of "A" "B"))
  = (ReadyToShow.ready_to_show (Some default_config) 1000,
     listening (info_of "A" "B")).
Proof.
  apply (time_changes_within_5s [(1, 2000); (2, 3000); (5, 6000)]
           (ReadyToShow.ready_to_show (Some default_config) 1000)
           (listening (info_of "A" "B"))).
  repeat constructor; vm_compute; discriminate.
Defined.

(** X16: an event that comes more than 5000 ms after the last accepted one
    is accepted: its time becomes the time of the last accepted event, and
    the elapsed seconds are written into the object of the last track
    change in place, whether a configuration is held or not; the object
    keeps its artist and its other properties, and no other object is
    touched. *)
Theorem time_change_accepted
  (t now : Z) (c : ReadyToShow.Closure) (w : World)
  (songInfo : ref) (i : SongInfo) :
  5000 < now - ReadyToShow.lastSent c ->
  ReadyToShow.lastSongInfo c = Some songInfo ->
  heap w !! songInfo = Some i ->
  ReadyToShow.lastSent (snd (fst (ReadyToShow.on_time_changed t now c w))) = now
  /\ ReadyToShow.lastSongInfo
       (snd (fst (ReadyToShow.on_time_changed t now c w))) = Some songInfo
  /\ (exists i' : SongInfo,
        heap (snd (ReadyToShow.on_time_changed t now c w)) !! songInfo = Some i'
        /\ elapsedSeconds i' = t
        /\ artist i' = artist i
        /\ others i' = others i)
  /\ forall r : ref,
       r <> songInfo ->
       heap (snd (ReadyToShow.on_time_changed t now c w)) !! r = heap w !! r.
Proof.
  intros Hnow Hc Hi. unfold ReadyToShow.on_time_changed.
  destruct (Z.ltb_spec 5000 (now - ReadyToShow.lastSent c)); [|lia].
  cbn [ReadyToShow.lastSongInfo ReadyToShow.config]. rewrite Hc.
  assert (Hi1 : heap (with_heap (alter (set_elapsedSeconds t) songInfo) w)
                !! songInfo = Some (set_elapsedSeconds t i)).
  { cbn [heap with_heap]. rewrite lookup_alter_eq, Hi. reflexivity. }
  assert (Ho1 : forall r : ref,
             r <> songInfo ->
             heap (with_heap (alter (set_elapsedSeconds t) songInfo) w) !! r
             = heap w !! r).
  { intros r Hr. cbn [heap with_heap]. apply lookup_alter_ne. congruence. }
  destruct (ReadyToShow.config c) as [cfg|].
  - destruct (updateActivity_object songInfo _ _ Hi1)
      as ((i' & Hi' & Ha & He & Ho) & Hother).
    destruct (updateActivity songInfo _) as [res w2].
    cbn [fst snd ReadyToShow.lastSent ReadyToShow.lastSongInfo] in *.
    split; [reflexivity|]. split; [reflexivity|]. split.
    + exists i'. split; [exact Hi'|]. repeat split; assumption.
    + intros r Hr. rewrite (Hother r Hr). apply Ho1, Hr.
  - cbn [fst snd ReadyToShow.lastSent ReadyToShow.lastSongInfo].
    split; [reflexivity|]. split; [reflexivity|]. split.
    + eexists. split; [exact Hi1|]. repeat split.
    + exact Ho1.
Qed.

(** An instance: 42 seconds, six seconds after the last accepted event. *)
Lemma time_change_accepted_witness :
  exists i' : SongInfo,
    heap (snd (ReadyToShow.on_time_changed 42 7000
                 {| ReadyToShow.config := Some default_config;
                    ReadyToShow.lastSongInfo := Some 1%positive;
                    ReadyToShow.lastSent := 1000 |}
                 (listening (info_of "A" "B"))))
    !! 1%positive = Some i'
    /\ elapsedSeconds i' = 42.
Proof.
  destruct (time_change_accepted 42 7000
              {| ReadyToShow.config := Some default_config;
                 ReadyToShow.lastSongInfo := Some 1%positive;
                 ReadyToShow.lastSent := 1000 |}
              (listening (info_of "A" "B")) 1%positive (info_of "A" "B"))
    as (_ & _ & (i' & H1 & H2 & _) & _);
    [vm_compute; reflexivity|reflexivity|reflexivity|].
  exists i'. split; [exact H1|exact H2].
Defined.

(* ================================================================== *)
(** * Before the port is bound *)
(* ================================================================== *)

(** X17: the filler is added only while broadcasting. An info given to
    [updateActivity] before the server is ready is stored as it is, a short
    title included; once the server listens, the first frame of a new
    upgraded connection carries that object unchanged. *)
Theorem info_stored_before_ready_is_served_unpadded
  (songInfo : ref) (req : IncomingMessage) (socket : Socket)
  (w : World) (i : SongInfo) :
  heap w !! songInfo = Some i ->
  ~ (title i = [] /\ artist i = []) ->
  ready (state w) = false ->
  ready (state (snd (on_listening (snd (updateActivity songInfo w))))) = true
  /\ heap (snd (on_listening (snd (updateActivity songInfo w)))) !! songInfo
     = Some i
  /\ Spec.added (snd (on_listening (snd (updateActivity songInfo w))))
       (snd (on_upgrade req socket
               (snd (on_listening (snd (updateActivity songInfo w))))))
     = SocketWrite socket (UTF8.encode (handshake req))
       :: match constructReply (JObject [(lit "songInfo", SongInfo_value i)]) with
          | Ok frame => [SocketWrite socket frame]
          | Throw _ => []
          end.
Proof.
  intros Hi Hne Hr. rewrite (updateActivity_not_ready _ _ _ Hi Hne Hr).
  cbn [snd on_listening modify with_state state heap]. split; [reflexivity|].
  split; [exact Hi|]. rewrite on_upgrade_spec. cbn [snd].
  erewrite (added_app _ _) by (cbn [trace]; reflexivity).
  unfold songInfo_object, lastSongInfo_value.
  cbn [state heap lastSongInfo set_lastSongInfo set_ready with_state].
  rewrite Hi. reflexivity.
Qed.

(** An instance: the title "A" stays one unit long. *)
Lemma info_stored_before_ready_is_served_unpadded_witness :
  heap (snd (on_listening
               (snd (updateActivity 1%positive (starting (info_of "A" "B"))))))
  !! 1%positive
  = Some (info_of "A" "B").
Proof.
  assert (Hne : ~ (title (info_of "A" "B") = [] /\ artist (info_of "A" "B") = []))
    by (intros [H _]; discriminate H).
  exact (proj1 (proj2 (info_stored_before_ready_is_served_unpadded
                         1%positive sample_request 9%nat
                         (starting (info_of "A" "B")) (info_of "A" "B")
                         eq_refl Hne eq_refl))).
Defined.

(* ================================================================== *)
(** * The order of the broadcast *)
(* ================================================================== *)

Module OrderFacts.
Import Runs.

Lemma keys_delete_sorted {V} (k : Z) (o : list (Z * V)) :
  StronglySorted Z.lt (keys o) -> StronglySorted Z.lt (keys (Obj.delete k o)).
Proof.
  induction o as [|[k' v'] o IH]; intros H; [exact H|].
  apply StronglySorted_inv in H as [Hs Hall]. cbn [Obj.delete].
  destruct (Z.eqb_spec k k'); [exact (IH Hs)|].
  apply SSorted_cons; [exact (IH Hs)|].
  rewrite Forall_forall in Hall |- *. intros x Hx.
  apply Hall, (RegistryFacts.keys_delete_elem k), Hx.
Qed.

Lemma keys_snoc_sorted {V} (k : Z) (v : V) (o : list (Z * V)) :
  StronglySorted Z.lt (keys o) -> Forall (fun k' => k' < k) (keys o) ->
  StronglySorted Z.lt (keys (o ++ [(k, v)])).
Proof.
  induction o as [|[k' v'] o IH]; intros Hs Hlt.
  - repeat constructor.
  - apply StronglySorted_inv in Hs as [Hs Hall].
    apply Forall_cons in Hlt as [Hk' Hlt]. cbn [fst] in Hk'.
    change (keys (((k', v') :: o) ++ [(k, v)]))
      with (k' :: keys (o ++ [(k, v)])).
    apply SSorted_cons; [exact (IH Hs Hlt)|].
    unfold keys. rewrite fmap_app. apply Forall_app. split; [exact Hall|].
    repeat constructor. exact Hk'.
Qed.

(** The upgraded registry is kept in the order of its identifiers: every
    identifier in it is below [nextSocketId], so a new one goes to the
    end. *)
Lemma wsSockets_stay_sorted (n : nat) (w : World) :
  reachable n w ->
  Z.of_nat n <= 2 ^ 53 ->
  0 <= nextSocketId (state w) <= Z.of_nat n
  /\ Forall (fun k => k < nextSocketId (state w)) (keys (wsSockets (state w)))
  /\ StronglySorted Z.lt (keys (wsSockets (state w))).
Proof.
  induction 1 as [h|n w w' Hreach IH Hstep]; intros Hn.
  { cbn. split; [lia|]. split; constructor. }
  destruct IH as (Hnext & Hall & Hsorted); [lia|].
  assert (Hkeep : forall s' : State,
             wsSockets s' = wsSockets (state w) ->
             nextSocketId s' = nextSocketId (state w) ->
             0 <= nextSocketId s' <= Z.of_nat (S n)
             /\ Forall (fun k => k < nextSocketId s') (keys (wsSockets s'))
             /\ StronglySorted Z.lt (keys (wsSockets s'))).
  { intros s' H2 H3. rewrite H2, H3. split; [lia|]. split; assumption. }
  assert (Hinc : Backend.post_increment (nextSocketId (state w))
                 = nextSocketId (state w) + 1).
  { unfold Backend.post_increment.
    destruct (Z.ltb_spec (nextSocketId (state w)) (2 ^ 53)); lia. }
  destruct Hstep as [h w|f w]; [|apply Hkeep; reflexivity].
  pose proof (RegistryFacts.after_registries h w) as Hreg.
  destruct h; try (destruct Hreg as (H1 & H2 & H3); apply Hkeep; assumption).
  - (* a plain connection: the counter moves on *)
    rewrite RegistryFacts.after_connection.
    cbn [wsSockets nextSocketId set_httpSockets set_nextSocketId].
    rewrite Hinc. split; [lia|]. split; [|exact Hsorted].
    eapply Forall_impl; [exact Hall|]. cbv beta. lia.
  - (* a plain connection closes *)
    apply Hkeep; reflexivity.
  - (* an upgrade: the new identifier goes to the end *)
    rewrite RegistryFacts.after_upgrade.
    cbn [wsSockets nextSocketId set_wsSockets set_nextSocketId].
    rewrite Hinc, (RegistryFacts.set_fresh _ _ _ Hall).
    split; [lia|]. split; [|apply keys_snoc_sorted; assumption].
    unfold keys. rewrite fmap_app. apply Forall_app. split.
    + eapply Forall_impl; [exact Hall|]. cbv beta. lia.
    + repeat constructor. cbn. lia.
  - (* an upgraded connection ends *)
    cbn. split; [lia|]. split; [|apply keys_delete_sorted, Hsorted].
    rewrite Forall_forall in Hall |- *. intros x Hx.
    apply Hall, (RegistryFacts.keys_delete_elem id), Hx.
Qed.

End OrderFacts.

(** X4: in every world reached within 2^53 steps from the start of the
    process, when [updateActivity] returns normally for an info that is
    not blank, with the server ready, it has written one and the same frame
    to the socket of every entry of [wsSockets], once each, one entry after
    the other and nothing else; and the entries are in strictly ascending
    order of their identifiers. *)
Theorem updateActivity_broadcasts_to_all
  (n : nat) (songInfo : ref) (w : World) (i : SongInfo) :
  Runs.reachable n w ->
  Z.of_nat n <= 2 ^ 53 ->
  heap w !! songInfo = Some i ->
  ~ (title i = [] /\ artist i = []) ->
  ready (state w) = true ->
  fst (updateActivity songInfo w) = Ok tt ->
  exists frame : list Z,
    Spec.added w (snd (updateActivity songInfo w))
    = (fun entry : Z * Socket => SocketWrite (snd entry) frame)
        <$> wsSockets (state w)
    /\ StronglySorted Z.lt (fst <$> wsSockets (state w))
    /\ (wsSockets (state w) <> [] ->
        constructReply (songInfo_object (snd (updateActivity songInfo w)))
        = Ok frame).
Proof.
  intros Hreach Hn Hi Hne Hr Hok.
  destruct (OrderFacts.wsSockets_stay_sorted n w Hreach Hn) as (_ & _ & Hsorted).
  destruct (decide (js_length (artist i) < 2 /\ 2 < js_length (title i)))
    as [[Ha Ht]|Hno].
  { rewrite (updateActivity_throws _ _ _ Hi Hr Ha Ht) in Hok. discriminate Hok. }
  revert Hok. rewrite (UpdateFacts.updateActivity_ready_eq _ _ _ Hi Hne Hr Hno).
  rewrite UpdateFacts.broadcast_result.
  destruct (constructReply _) as [frame|e] eqn:E.
  - intros _. exists frame. cbn [snd].
    split; [|split; [exact Hsorted|intros _; exact E]].
    apply added_app. cbn [trace]. unfold Obj.values.
    rewrite <- list_fmap_compose. reflexivity.
  - destruct (wsSockets (state w)) as [|[k s] o] eqn:Ews;
      cbn [Obj.values fmap list_fmap].
    + intros _. exists []. cbn [snd].
      split; [apply added_app; reflexivity|].
      split; [constructor|]. intros H. contradiction.
    + intros H. discriminate H.
Qed.

(** An instance: two clients upgrade after the server has started to
    listen; the frame goes to the first and then to the second. *)
Lemma updateActivity_broadcasts_to_all_witness :
  exists frame : list Z,
    Spec.added
      (Runs.after (Runs.HUpgrade sample_request 9%nat)
         (Runs.after (Runs.HUpgrade sample_request 8%nat)
            (Runs.after Runs.HListening
               (Runs.after Runs.HStart
                  {| state := initial_state;
                     heap := {[ 1%positive := info_of "AB" "CD" ]};
                     trace := [] |}))))
      (snd (updateActivity 1%positive
              (Runs.after (Runs.HUpgrade sample_request 9%nat)
                 (Runs.after (Runs.HUpgrade sample_request 8%nat)
                    (Runs.after Runs.HListening
                       (Runs.after Runs.HStart
                          {| state := initial_state;
                             heap := {[ 1%positive := info_of "AB" "CD" ]};
                             trace := [] |}))))))
    = (fun entry : Z * Socket => SocketWrite (snd entry) frame)
        <$> [(0, 8%nat); (1, 9%nat)].
Proof.
  assert (Hne : ~ (title (info_of "AB" "CD") = []
                   /\ artist (info_of "AB" "CD") = []))
    by (intros [H _]; discriminate H).
  assert (Hreach :
            Runs.reachable 4
              (Runs.after (Runs.HUpgrade sample_request 9%nat)
                 (Runs.after (Runs.HUpgrade sample_request 8%nat)
                    (Runs.after Runs.HListening
                       (Runs.after Runs.HStart
                          {| state := initial_state;
                             heap := {[ 1%positive := info_of "AB" "CD" ]};
                             trace := [] |}))))).
  { repeat (eapply Runs.reachable_step; [|apply Runs.step_handler]).
    apply Runs.reachable_start. }
  assert (Hn : Z.of_nat 4 <= 2 ^ 53) by (vm_compute; discriminate).
  destruct (updateActivity_broadcasts_to_all 4 1%positive _ (info_of "AB" "CD")
              Hreach Hn) as (frame & H & _);
    [vm_compute; reflexivity|exact Hne|vm_compute; reflexivity
    |vm_compute; reflexivity|].
  exists frame. rewrite H. reflexivity.
Defined.
